(** * Regression performance metrics (evidently.v2.metrics)

    A shallow embedding of
    [src/evidently/v2/metrics/regression_performance_metrics.py]:
    the metric [RegressionPerformanceMetrics.calculate] and its helper
    [_me_mae_distr], together with the parts of numpy, pandas and
    scikit-learn that the two functions call.

    Numbers.  A Python float is modelled as [option Q]: [Some q] is the
    finite number [q], [None] is NaN (a missing value).  Arithmetic is
    exact rational arithmetic: infinities, the rounding of binary64 and
    the wrap-around of integer columns are not modelled.

    Objects.  Data frames are mutable Python objects.  They live in a heap
    (a list of frames addressed by position); [df.copy()] allocates a new
    frame and [df[c] = v] updates the frame it is applied to in place. *)

From Stdlib Require Import QArith Qabs Qminmax Lqa.
From stdpp Require Import base decidable option list sorting gmap strings.

Local Open Scope string_scope.
Local Open Scope list_scope.
Local Open Scope nat_scope.

(** ** Values *)

(** A Python float: [None] is NaN. *)
Abbreviation float := (option Q).

(** The exceptions raised by the modelled code.  [Stuck] is not a Python
    exception: it is the outcome of a step that no Python run can reach
    (dereferencing an address that holds no object, columns of one frame
    with different lengths) or that lies outside the modelled fragment of
    a library. *)
Inductive exn : Type :=
  | ValueError (msg : string)
  | KeyError (key : string)
  | TypeError (msg : string)
  | Stuck (why : string).

(** Results of code that may raise. *)
Definition res (A : Type) : Type := exn + A.

#[global] Instance res_ret : MRet res := λ _ a, inr a.
#[global] Instance res_bind : MBind res := λ _ _ k r,
  match r with
  | inl e => inl e
  | inr a => k a
  end.

Definition throw {A} (e : exn) : res A := inl e.

Definition Qlt_bool (x y : Q) : bool := negb (Qle_bool y x).

(** An interval [(left, right]] of the real line, closed on the right: the
    label pandas gives to a bin. *)
Record Interval : Type := mkInterval { left : Q; right : Q }.

Definition Interval_eqb (i j : Interval) : bool :=
  Qeq_bool (left i) (left j) && Qeq_bool (right i) (right j).

(** A column of a data frame: numeric, or categorical over interval
    labels (what [pd.cut] returns).  A categorical stores for each row the
    position of its category, or nothing for a missing entry. *)
Inductive Series : Type :=
  | Numeric (values : list float)
  | Categorical (categories : list Interval) (codes : list (option nat)).

(** A data frame maps column names to columns. *)
Abbreviation DataFrame := (gmap string Series).

(** Modelled from the spec: [evidently.ColumnMapping] is not among the
    sources.  The spec gives it as a read-only struct that exposes the
    identifiers of the target column and of the prediction column. *)
Record ColumnMapping : Type := mkColumnMapping {
  target : string;
  prediction : string
}.

(** ** numpy *)

Module np.

(** How many bins Doane's rule asks for on a sample of more than two
    values with positive spread: [ceil(ptp / width)] with
    [width = ptp / (1 + log2 n + log2 (1 + |g1| / sg1))].  The value is
    irrational arithmetic, so it is left to an implementation; it is at
    least one because the divisor is at least one. *)
Class DoaneRule : Type := doane_bins : list Q → positive.

(** [a.min()], [a.max()] on a non-empty array. *)
Definition amin (x : Q) (xs : list Q) : Q := foldl Qmin x xs.
Definition amax (x : Q) (xs : list Q) : Q := foldl Qmax x xs.

Definition sum (a : list Q) : Q := foldr Qplus 0%Q a.
Definition mean (a : list Q) : Q :=
  (sum a / inject_Z (Z.of_nat (length a)))%Q.
(** [np.var]: the mean squared deviation; [np.std] is its square root,
    which is positive exactly when the variance is. *)
Definition var (a : list Q) : Q :=
  mean (map (λ x, (x - mean a) * (x - mean a))%Q a).

(** [np.linspace(start, stop, num, endpoint=True)]. *)
Definition linspace (start stop : Q) (num : nat) : list Q :=
  match num with
  | 0 => []
  | 1 => [start]
  | S (S _ as div) =>
      let step := ((stop - start) / inject_Z (Z.of_nat div))%Q in
      map (λ i, (start + inject_Z (Z.of_nat i) * step)%Q) (seq 0 div)
        ++ [stop]
  end.

(** The values of an array when none of them is NaN. *)
Definition finite_values (a : list float) : option (list Q) := mapM id a.

(** [_get_outer_edges(a, range=None)]. *)
Definition _get_outer_edges (a : list float) : res (Q * Q) :=
  match a with
  | [] => inr (0%Q, 1%Q)
  | _ :: _ =>
      match finite_values a with
      | Some (x :: xs) =>
          let first_edge := amin x xs in
          let last_edge := amax x xs in
          if Qeq_bool first_edge last_edge
          then inr ((first_edge - 0.5)%Q, (last_edge + 0.5)%Q)
          else inr (first_edge, last_edge)
      | _ => inl (ValueError "autodetected range is not finite")
      end
  end.

(** The number of equal bins chosen for [bins="doane"]:
    [_hist_bin_doane] returns width 0 unless the sample has more than
    two values and a positive standard deviation, and a zero width
    means a single bin. *)
Definition n_equal_bins `{DoaneRule} (a : list Q) : nat :=
  match a with
  | [] => 1
  | _ :: _ =>
      if bool_decide (2 < length a) && Qlt_bool 0 (var a)
      then Pos.to_nat (doane_bins a)
      else 1
  end.

(** [np.histogram_bin_edges(a, bins="doane")]. *)
Definition histogram_bin_edges `{DoaneRule} (a : list float)
    : res (list Q) :=
  '(first_edge, last_edge) ← _get_outer_edges a;
  let n := n_equal_bins (default [] (finite_values a)) in
  mret (linspace first_edge last_edge (n + 1)).

(** [sa.searchsorted(v, 'left')] and [sa.searchsorted(v, 'right')] on the
    sorted sample [sa]: the number of sample values below [v], and the
    number of sample values not above [v].  NaN sorts after every
    number, so it is counted by neither. *)
Definition count_below (a : list float) (v : Q) : Z :=
  Z.of_nat (length (filter (λ x, Qlt_bool x v = true) (omap id a))).
Definition count_not_above (a : list float) (v : Q) : Z :=
  Z.of_nat (length (filter (λ x, Qle_bool x v = true) (omap id a))).

(** [_search_sorted_inclusive(sa, v)]: left insertion points for all
    edges but the last, right insertion point for the last. *)
Definition _search_sorted_inclusive (a : list float) (v : list Q)
    : list Z :=
  map (count_below a) (removelast v)
    ++ map (count_not_above a) (drop (length v - 1) v).

(** [np.diff]. *)
Fixpoint diff (l : list Z) : list Z :=
  match l with
  | x :: (y :: _) as t => (y - x)%Z :: diff t
  | _ => []
  end.

(** [np.any(bin_edges[:-1] > bin_edges[1:])]. *)
Fixpoint decreases (v : list Q) : bool :=
  match v with
  | x :: (y :: _) as t => Qlt_bool y x || decreases t
  | _ => false
  end.

(** [np.histogram(a, bins=bin_edges)] for an array of edges: the pair
    (counts, edges). *)
Definition histogram (a : list float) (bins : list Q)
    : res (list Z * list Q) :=
  if decreases bins
  then inl (ValueError "`bins` must increase monotonically, when an array")
  else inr (diff (_search_sorted_inclusive a bins), bins).

End np.

(** ** pandas *)

Module pd.

(** [df[key]]. *)
Definition getitem (df : DataFrame) (key : string) : res Series :=
  match df !! key with
  | Some s => mret s
  | None => throw (KeyError key)
  end.

(** The distinct values of an array, in order of first appearance. *)
Fixpoint unique (a : list Q) : list Q :=
  match a with
  | [] => []
  | x :: a' => x :: filter (λ y, Qeq_bool x y = false) (unique a')
  end.

(** [s.nunique(dropna=True)]. *)
Definition nunique (s : Series) : nat :=
  match s with
  | Numeric values => length (unique (omap id values))
  | Categorical _ codes => length (remove_dups (omap id codes))
  end.

(** [s1 - s2] for two columns of one frame, as an array. *)
Definition sub (s1 s2 : Series) : res (list float) :=
  match s1, s2 with
  | Numeric v1, Numeric v2 =>
      if bool_decide (length v1 = length v2)
      then mret (zip_with (λ x y : float,
                   match x, y with
                   | Some a, Some b => Some (a - b)%Q
                   | _, _ => None
                   end) v1 v2)
      else throw (Stuck "columns of one frame have one length")
  | _, _ => throw (TypeError "unsupported operand type(s) for -")
  end.

(** [bins.searchsorted(x, side='left')] on ascending [bins]: the first
    position whose entry is not below [x]. *)
Fixpoint searchsorted_left (bins : list Q) (x : Q) : nat :=
  match bins with
  | [] => 0
  | b :: bins' =>
      if Qlt_bool b x then S (searchsorted_left bins' x) else 0
  end.

(** The bin of one value in [_bins_to_cuts] (right-closed bins, lowest
    edge excluded): missing values and values outside the edges get no
    bin. *)
Definition bin_code (bins : list Q) (x : float) : option nat :=
  match x with
  | None => None
  | Some q =>
      let ids := searchsorted_left bins q in
      if bool_decide (ids = 0) || bool_decide (ids = length bins)
      then None
      else Some (ids - 1)
  end.

(** [IntervalIndex.from_breaks(breaks, closed='right')].  pandas rounds
    the breaks of the labels to a precision that keeps them distinct;
    the labels here carry the exact breaks. *)
Definition from_breaks (breaks : list Q) : list Interval :=
  zip_with mkInterval (removelast breaks) (tail breaks).

(** The edges [pd.cut] computes for an integer number of bins from the
    least and the greatest value. *)
Definition cut_edges (mn mx : Q) (bins : nat) : list Q :=
  if Qeq_bool mn mx
  then
    let mn' := (mn - (if Qeq_bool mn 0 then 0.001 else 0.001 * Qabs mn))%Q in
    let mx' := (mx + (if Qeq_bool mx 0 then 0.001 else 0.001 * Qabs mx))%Q in
    np.linspace mn' mx' (bins + 1)
  else
    let adj := ((mx - mn) * 0.001)%Q in
    match np.linspace mn mx (bins + 1) with
    | [] => []
    | b0 :: rest => (b0 - adj)%Q :: rest
    end.

(** [pd.cut(x, bins)] for an integer [bins]: [bins] equal-width
    right-closed intervals over the range of [x].  A column without any
    number has no range; pandas then fails on the edges for two bins or
    more, and the one-bin case is outside the model. *)
Definition cut (x : Series) (bins : nat) : res Series :=
  match x with
  | Categorical _ _ => throw (TypeError "cannot cut a column of intervals")
  | Numeric values =>
      if bool_decide (bins < 1)
      then throw (ValueError "`bins` should be a positive integer.")
      else
        match values, omap id values with
        | [], _ => throw (ValueError "Cannot cut empty array")
        | _, [] =>
            if bool_decide (bins = 1)
            then throw (Stuck "one bin over a column without numbers")
            else throw (ValueError "Bin edges must be unique")
        | _, q :: qs =>
            let edges := cut_edges (np.amin q qs) (np.amax q qs) bins in
            mret (Categorical (from_breaks edges)
                              (map (bin_code edges) values))
        end
  end.

(** Keep the rows selected by a mask. *)
Definition compress {A} (mask : list bool) (l : list A) : list A :=
  omap (λ '(b, x), if b : bool then Some x else None) (zip mask l).

Definition take_rows (mask : list bool) (s : Series) : Series :=
  match s with
  | Numeric values => Numeric (compress mask values)
  | Categorical cats codes => Categorical cats (compress mask codes)
  end.

(** The rows of the group of category [i]. *)
Definition group_mask (codes : list (option nat)) (i : nat) : list bool :=
  map (λ c, bool_decide (c = Some i)) codes.

(** A column indexed by the categories of a categorical: every entry
    carries the position of its category and the label. *)
Definition Indexed (A : Type) : Type := list ((nat * Interval) * A).

(** [df.groupby(by).apply(f)] for a function that returns a scalar.
    Grouping by a categorical keeps every category ([observed=False]):
    [f] is called once per category, in category order, on the frame of
    the rows of that category, which has no rows when the category is
    not observed; rows without category are in no group.  Grouping by
    another kind of column is outside the model. *)
Definition groupby_apply {A} (df : DataFrame) (by_ : string)
    (f : DataFrame → res A) : res (Indexed A) :=
  key ← getitem df by_;
  match key with
  | Categorical cats codes =>
      mapM (λ '(i, c),
              v ← f (take_rows (group_mask codes i) <$> df);
              mret ((i, c), v))
           (imap pair cats)
  | Numeric _ => throw (Stuck "grouping by a numeric column")
  end.

Definition by_count_desc (e1 e2 : (nat * Interval) * Z) : Prop :=
  (e2.2 ≤ e1.2)%Z.
Definition by_index {A} (e1 e2 : (nat * Interval) * A) : Prop :=
  e1.1.1 ≤ e2.1.1.

#[global] Instance by_count_desc_dec e1 e2 : Decision (by_count_desc e1 e2) :=
  Z_le_dec (e2.2) (e1.2).
#[global] Instance by_index_dec {A} (e1 e2 : (nat * Interval) * A)
    : Decision (by_index e1 e2) :=
  le_dec (e1.1.1) (e2.1.1).

(** [s.value_counts()] of a categorical: one count per category, the
    categories without rows included, missing entries dropped, sorted
    by descending count.  Other columns are outside the model. *)
Definition value_counts (s : Series) : res (Indexed Z) :=
  match s with
  | Categorical cats codes =>
      mret (merge_sort by_count_desc
              (imap (λ i c,
                 ((i, c),
                  Z.of_nat (length (filter (λ x, x = Some i) codes))))
                 cats))
  | Numeric _ => throw (Stuck "value counts of a numeric column")
  end.

(** [s.sort_index()]: a categorical index sorts by category position. *)
Definition sort_index {A} (s : Indexed A) : Indexed A :=
  merge_sort by_index s.

(** [s.items()]: the (label, value) pairs in order. *)
Definition items {A} (s : Indexed A) : list (Interval * A) :=
  map (λ e, (e.1.2, e.2)) s.

(** [s[idx]] by label. *)
Definition loc {A} (s : Indexed A) (idx : Interval) : res A :=
  match list_find (λ e, Interval_eqb e.1.2 idx = true) s with
  | Some (_, e) => mret e.2
  | None => throw (KeyError "interval")
  end.

End pd.

(** ** scikit-learn *)

Module sklearn.

(** [_check_reg_targets]: both arrays numeric, of one length, without
    NaN and with at least one sample. *)
Definition _check_reg_targets (y_true y_pred : Series)
    : res (list Q * list Q) :=
  match y_true, y_pred with
  | Numeric t, Numeric p =>
      if bool_decide (length t = length p)
      then
        match np.finite_values t, np.finite_values p with
        | Some t', Some p' =>
            match t' with
            | [] => throw (ValueError
                      "Found array with 0 sample(s) while a minimum of 1 is required.")
            | _ :: _ => mret (t', p')
            end
        | _, _ => throw (ValueError "Input contains NaN")
        end
      else throw (ValueError
             "Found input variables with inconsistent numbers of samples")
  | _, _ => throw (TypeError "the targets are not numeric")
  end.

Definition errors (t p : list Q) : list Q := zip_with Qminus t p.

(** [mean_absolute_error(y_true, y_pred)]. *)
Definition mean_absolute_error (y_true y_pred : Series) : res Q :=
  '(t, p) ← _check_reg_targets y_true y_pred;
  mret (np.mean (map Qabs (errors t p))).

(** [mean_squared_error(y_true, y_pred)]. *)
Definition mean_squared_error (y_true y_pred : Series) : res Q :=
  '(t, p) ← _check_reg_targets y_true y_pred;
  mret (np.mean (map (λ e, e * e)%Q (errors t p))).

(** [r2_score(y_true, y_pred)]: NaN for fewer than two samples; with a
    constant target the score is 1 for a perfect fit and 0 otherwise. *)
Definition r2_score (y_true y_pred : Series) : res float :=
  '(t, p) ← _check_reg_targets y_true y_pred;
  if bool_decide (length p < 2)
  then mret None
  else
    let numerator := np.sum (map (λ e, e * e)%Q (errors t p)) in
    let denominator :=
      np.sum (map (λ y, (y - np.mean t) * (y - np.mean t))%Q t) in
    if Qeq_bool denominator 0
    then mret (Some (if Qeq_bool numerator 0 then 1 else 0)%Q)
    else mret (Some (1 - numerator / denominator)%Q).

End sklearn.

(** ** The heap of data frames *)

(** The address of a data frame object. *)
Abbreviation loc := nat (only parsing).

Abbreviation Heap := (list DataFrame).

(** Code that reads and updates the heap and may raise; when it raises,
    the updates made so far stay. *)
Definition M (A : Type) : Type := Heap → res A * Heap.

#[global] Instance M_ret : MRet M := λ _ a h, (inr a, h).
#[global] Instance M_bind : MBind M := λ _ _ k m h,
  match m h with
  | (inl e, h') => (inl e, h')
  | (inr a, h') => k a h'
  end.

(** [raise e]. *)
Definition raise {A} (e : exn) : M A := λ h, (inl e, h).

(** Run code that does not touch the heap. *)
Definition lift {A} (r : res A) : M A := λ h, (r, h).

(** The frame at an address. *)
Definition read (l : loc) : M DataFrame := λ h,
  match h !! l with
  | Some df => (inr df, h)
  | None => (inl (Stuck "no object at this address"), h)
  end.

(** A new object, at the first unused address. *)
Definition alloc (df : DataFrame) : M loc :=
  λ h : Heap, (inr (length h), h ++ [df]).

(** Replace the object at an address. *)
Definition write (l : loc) (df : DataFrame) : M unit :=
  λ h : Heap, (inr (), <[l := df]> h).

(** [df.copy()]: a new object with the same columns. *)
Definition copy (l : loc) : M loc :=
  df ← read l;
  alloc df.

(** [df[key]] on the object at [l]. *)
Definition getitem (l : loc) (key : string) : M Series :=
  df ← read l;
  lift (pd.getitem df key).

(** [df[key] = value]: the object at [l] is updated in place. *)
Definition setitem (l : loc) (key : string) (value : Series) : M unit :=
  df ← read l;
  write l (<[key := value]> df).

(** ** The metric *)

(** A Python dict of diagnostics. *)
Abbreviation dict := (gmap string float).

(** The external analyzer
    ([evidently.analyzers.regression_performance_analyzer]). *)
Module analyzers.

(** Modelled from the spec: the quality metrics the analyzer reports for
    one dataset, with the fields [calculate] reads. *)
Record RegressionPerformanceMetrics : Type := {
  mean_error : float;
  mean_abs_error : float;
  mean_abs_perc_error : float;
  abs_error_max : float;
  error_std : float;
  abs_error_std : float;
  abs_perc_error_std : float;
  error_normality : dict;
  underperformance : dict
}.

(** Modelled from the spec: the result of the analyzer, with the fields
    [calculate] reads: the metrics of the dataset in the reference slot
    and the optional error-bias comparison. *)
Record RegressionPerformanceAnalyzerResults : Type := {
  reference_metrics : RegressionPerformanceMetrics;
  error_bias : option dict
}.

(** Modelled from the spec: the class [RegressionPerformanceAnalyzer] is
    not among the sources.  The spec gives it as a capability with one
    operation, [analyze(reference_dataset, current_dataset_or_none,
    column_mapping)], that only computes: a function of the datasets it
    is given, which may fail. *)
Class RegressionPerformanceAnalyzer : Type :=
  calculate :
    DataFrame → option DataFrame → ColumnMapping
    → res RegressionPerformanceAnalyzerResults.

(** Modelled from the spec: the result of the analyzer holds an
    error-bias comparison only when the analyzer was given a current
    dataset next to the reference one ([error_bias_or_none]). *)
Class ErrorBiasContract `{!RegressionPerformanceAnalyzer} : Prop :=
  error_bias_present reference_data current_data column_mapping r :
    calculate reference_data current_data column_mapping = inr r →
    is_Some (error_bias r) ↔ is_Some current_data.

End analyzers.

(** Modelled from the spec: [evidently.v2.metrics.base_metric.InputData]
    is not among the sources.  [calculate] reads three fields of it: the
    required current dataset, the optional reference dataset and the
    column mapping.  The datasets are references to frame objects;
    [None] is Python's [None]. *)
Record InputData : Type := {
  reference_data : option loc;
  current_data : option loc;
  column_mapping : ColumnMapping
}.

(** The dataclass [RegressionPerformanceMetricsResults].  [rmsa] is a
    mean of squares of numbers, never NaN. *)
Record RegressionPerformanceMetricsResults : Type := {
  r2_score : float;
  rmsa : Q;
  mean_error : float;
  me_distr : list (Q * Z);
  ref_me_distr : option (list (Q * Z));
  mean_abs_error : float;
  mae_distr : list (Interval * Q * Z);
  ref_mae_distr : option (list (Interval * Q * Z));
  mean_abs_perc_error : float;
  abs_error_max : float;
  error_std : float;
  abs_error_std : float;
  abs_perc_error_std : float;
  error_normality : dict;
  underperformance : dict;
  error_bias : option dict
}.

Section metrics.
Context `{!np.DoaneRule}.

(** [_me_mae_distr(df, column_mapping)].  The local name [df] is rebound
    to the copy, so every later read and the assignment of the bin column
    go to the copy; [df.target_binned] reads the column of that name. *)
Definition _me_mae_distr (df : loc) (column_mapping : ColumnMapping)
    : M (list (Q * Z) * list (Interval * Q * Z)) :=
  df ← copy df;
  tgt ← getitem df (target column_mapping);
  let count_uniq_values := pd.nunique tgt in
  tgt ← getitem df (target column_mapping);
  target_binned ← lift (pd.cut tgt (min count_uniq_values 10));
  setitem df "target_binned" target_binned;;

  (* data = df[target] - df[prediction]; the histogram of the errors *)
  t ← getitem df (target column_mapping);
  p ← getitem df (prediction column_mapping);
  data ← lift (pd.sub t p);
  me_bins ← lift (np.histogram_bin_edges data);
  me_hist ← lift (np.histogram data me_bins);

  (* the mean absolute error and the number of rows of every bin *)
  frame ← read df;
  mae ← lift (pd.groupby_apply frame "target_binned" (λ x,
            y_true ← pd.getitem x (target column_mapping);
            y_pred ← pd.getitem x (prediction column_mapping);
            sklearn.mean_absolute_error y_true y_pred));
  target_binned ← getitem df "target_binned";
  counts ← lift (pd.value_counts target_binned);
  let mae_hist := pd.sort_index counts in

  (* the two comprehensions of the result *)
  bins ← lift (mapM (λ '(idx, value),
                       m ← pd.loc mae idx;
                       mret (idx, m, value))
                    (pd.items mae_hist));
  mret (zip_with (λ x y, (y, x)) me_hist.1 me_hist.2, bins).

Context `{!analyzers.RegressionPerformanceAnalyzer}.

(** [RegressionPerformanceMetrics.calculate(self, data, metrics)];
    [self.analyzer] is the analyzer of the context. *)
Definition calculate (data : InputData) (metrics : dict)
    : M RegressionPerformanceMetricsResults :=
  match current_data data with
  | None => raise (ValueError "current dataset should be present")
  | Some current =>
      analyzer_results ←
        match reference_data data with
        | None =>
            cur ← read current;
            lift (analyzers.calculate cur None (column_mapping data))
        | Some reference =>
            ref ← read reference;
            cur ← read current;
            lift (analyzers.calculate ref (Some cur) (column_mapping data))
        end;
      y_true ← getitem current (target (column_mapping data));
      y_pred ← getitem current (prediction (column_mapping data));
      r2_score_value ← lift (sklearn.r2_score y_true y_pred);
      y_true ← getitem current (target (column_mapping data));
      y_pred ← getitem current (prediction (column_mapping data));
      rmsa_score_value ← lift (sklearn.mean_squared_error y_true y_pred);
      '(me_distr, mae_distr) ← _me_mae_distr current (column_mapping data);
      '(ref_me_distr, ref_mae_distr) ←
        match reference_data data with
        | Some reference =>
            '(me, mae) ← _me_mae_distr reference (column_mapping data);
            mret (Some me, Some mae)
        | None => mret (None, None)
        end;
      let reference_metrics := analyzers.reference_metrics analyzer_results in
      mret {|
        r2_score := r2_score_value;
        rmsa := rmsa_score_value;
        mean_error := analyzers.mean_error reference_metrics;
        me_distr := me_distr;
        ref_me_distr := ref_me_distr;
        mean_abs_error := analyzers.mean_abs_error reference_metrics;
        mae_distr := mae_distr;
        ref_mae_distr := ref_mae_distr;
        mean_abs_perc_error := analyzers.mean_abs_perc_error reference_metrics;
        abs_error_max := analyzers.abs_error_max reference_metrics;
        error_std := analyzers.error_std reference_metrics;
        abs_error_std := analyzers.abs_error_std reference_metrics;
        abs_perc_error_std := analyzers.abs_perc_error_std reference_metrics;
        error_normality := analyzers.error_normality reference_metrics;
        underperformance := analyzers.underperformance reference_metrics;
        error_bias := analyzers.error_bias analyzer_results
      |}
  end.

End metrics.

(** ** Vocabulary of the properties *)

Definition Zsum (l : list Z) : Z := foldr Z.add 0%Z l.

(** A list is increasing when later entries are greater. *)
Definition increasing (v : list Q) : Prop :=
  ∀ i j x y, v !! i = Some x → v !! j = Some y → i < j → (x < y)%Q.

(** Entries whose index position is their place in the list. *)
Definition positional {A} (s : pd.Indexed A) : Prop :=
  ∀ i e, s !! i = Some e → e.1.1 = i.

(** The number of rows of category [i]. *)
Definition category_count (codes : list (option nat)) (i : nat) : Z :=
  Z.of_nat (length (filter (λ x, x = Some i) codes)).

(** A row that has one of the first [k] categories. *)
Definition has_code_below (k : nat) (c : option nat) : Prop :=
  ∃ i, c = Some i ∧ i < k.

#[global] Instance has_code_below_dec k c : Decision (has_code_below k c).
Proof.
  unfold has_code_below. destruct c as [i|].
  - destruct (decide (i < k)) as [Hlt|Hge].
    + left. by exists i.
    + right. intros (j & Hj & Hlt). injection Hj as ->. done.
  - right. intros (j & Hj & _). done.
Defined.

(** The number of rows with both a target and a prediction. *)
Definition valid_rows (tgt pred : list float) : Z :=
  Z.of_nat (length (filter (λ r, is_Some r.1 ∧ is_Some r.2) (zip tgt pred))).

(** The number of values of a sample in the bin from [lo] to [hi]; the
    bin holds [hi] only if it is closed. *)
Definition in_bin (lo hi : Q) (closed : bool) (x : Q) : Prop :=
  (lo <= x)%Q ∧ if closed then (x <= hi)%Q else (x < hi)%Q.

#[global] Instance in_bin_dec lo hi closed x : Decision (in_bin lo hi closed x).
Proof.
  unfold in_bin. destruct closed.
  - destruct (Qlt_le_dec x lo) as [H1|H1]; [right; intros [? _]; lra|].
    destruct (Qlt_le_dec hi x) as [H2|H2]; [right; intros [_ ?]; lra|].
    by left.
  - destruct (Qlt_le_dec x lo) as [H1|H1]; [right; intros [? _]; lra|].
    destruct (Qlt_le_dec x hi) as [H2|H2]; [|right; intros [_ ?]; lra].
    by left.
Defined.

Definition bin_count (a : list float) (lo hi : Q) (closed : bool) : Z :=
  Z.of_nat (length (filter (in_bin lo hi closed) (omap id a))).

(** The label and the count of an entry of [binned_mae]. *)
Definition bin_label (b : Interval * Q * Z) : Interval := b.1.1.
Definition bin_rows (b : Interval * Q * Z) : Z := b.2.

(** [lambda x: mean_absolute_error(x[target], x[prediction])]. *)
Abbreviation group_mae cm :=
  (λ x : DataFrame,
     y_true ← pd.getitem x (target cm);
     y_pred ← pd.getitem x (prediction cm);
     sklearn.mean_absolute_error y_true y_pred).

(** Two runs that work on the object allocated last, in two heaps that
    hold the same object there: they end with the same outcome and leave
    the same object, and touch nothing else. *)
Definition on_last {A} (m1 m2 : M A) (h1 h2 : list DataFrame) : Prop :=
  ∀ d, ∃ r d', m1 (h1 ++ [d]) = (r, h1 ++ [d']) ∧
               m2 (h2 ++ [d]) = (r, h2 ++ [d']).

(** Code that only adds objects to the heap. *)
Definition appends {A} (m : M A) : Prop :=
  ∀ h, ∃ ext, (m h).2 = h ++ ext.

(** Two heaps that hold the same objects at the given addresses. *)
Definition agree (ls : list nat) (h1 h2 : list DataFrame) : Prop :=
  ∀ l, l ∈ ls → is_Some (h1 !! l) ∧ h1 !! l = h2 !! l.

(** Code whose outcome depends on the objects at the given addresses
    only. *)
Definition reads_only {A} (ls : list nat) (m : M A) : Prop :=
  ∀ h1 h2, agree ls h1 h2 → (m h1).1 = (m h2).1.

(** The datasets of an input. *)
Definition datasets (data : InputData) : list nat :=
  omap id [current_data data; reference_data data].

Section vocabulary.
Context `{!np.DoaneRule} `{!analyzers.RegressionPerformanceAnalyzer}.

(** The steps of a run of [_me_mae_distr] on the frame [df] that
  returns [(hist, bins)]: the columns it reads and the values it
  computes on the way. *)
Record binner_steps (df : DataFrame) (cm : ColumnMapping)
  (tgt pred : list float) (cats : list Interval)
  (codes : list (option nat)) (data : list float) (edges : list Q)
  (counts : list Z) (mae : pd.Indexed Q)
  (hist : list (Q * Z)) (bins : list (Interval * Q * Z)) : Prop := {
run_target : df !! target cm = Some (Numeric tgt);
run_prediction : df !! prediction cm = Some (Numeric pred);
run_target_name : target cm ≠ "target_binned";
run_prediction_name : prediction cm ≠ "target_binned";
run_cut :
  pd.cut (Numeric tgt) (min (pd.nunique (Numeric tgt)) 10)
  = inr (Categorical cats codes);
run_sub : pd.sub (Numeric tgt) (Numeric pred) = inr data;
run_bin_edges : np.histogram_bin_edges data = inr edges;
run_histogram : np.histogram data edges = inr (counts, edges);
run_groupby :
  pd.groupby_apply (<["target_binned" := Categorical cats codes]> df)
    "target_binned" (group_mae cm)
  = inr mae;
run_bins :
  mapM (λ '(idx, value), m ← pd.loc mae idx; mret (idx, m, value))
       (imap (λ i c, (c, category_count codes i)) cats)
  = inr bins;
run_hist : hist = zip_with (λ x y, (y, x)) counts edges
}.

(** The record [calculate] builds from the results of its steps. *)
Definition assemble (a : analyzers.RegressionPerformanceAnalyzerResults)
  (r2 : float) (mse : Q)
  (me : list (Q * Z)) (mae : list (Interval * Q * Z))
  (ref_me : option (list (Q * Z)))
  (ref_mae : option (list (Interval * Q * Z)))
  : RegressionPerformanceMetricsResults :=
let m := analyzers.reference_metrics a in
{| r2_score := r2; rmsa := mse;
   mean_error := analyzers.mean_error m;
   me_distr := me; ref_me_distr := ref_me;
   mean_abs_error := analyzers.mean_abs_error m;
   mae_distr := mae; ref_mae_distr := ref_mae;
   mean_abs_perc_error := analyzers.mean_abs_perc_error m;
   abs_error_max := analyzers.abs_error_max m;
   error_std := analyzers.error_std m;
   abs_error_std := analyzers.abs_error_std m;
   abs_perc_error_std := analyzers.abs_perc_error_std m;
   error_normality := analyzers.error_normality m;
   underperformance := analyzers.underperformance m;
   error_bias := analyzers.error_bias a |}.

End vocabulary.

(** The dataset of the end-to-end example of the spec. *)
Definition example_mapping : ColumnMapping :=
  {| target := "target"; prediction := "prediction" |}.

Definition example_frame : DataFrame :=
  <["target" := Numeric [Some 1; Some 2; Some 3; Some 4; Some 5]%Q]>
    (<["prediction" := Numeric [Some 1; Some 1; Some 5; Some 4; Some 2]%Q]> ∅).

(** A reference dataset for the examples. *)
Definition example_reference : DataFrame :=
  <["target" := Numeric [Some 2; Some 4; Some 6]%Q]>
    (<["prediction" := Numeric [Some 1; Some 5; Some 6]%Q]> ∅).

(** Sturges' rule, [ceil(1 + log2 n)] bins: what Doane's rule asks for on
    a sample without skew.  It stands for Doane's rule where an example is
    run. *)
Definition sturges : np.DoaneRule :=
  λ a, Pos.of_nat (1 + Nat.log2_up (length a)).

(** Modelled from the spec: a stand-in for the analyzer, which is not
    among the sources, for the runs of the examples.  It reports the mean
    error, the mean absolute error and the greatest absolute error of the
    dataset in its reference slot, NaN for the statistics that need more
    than rational arithmetic, empty diagnostics, and an error-bias
    comparison exactly when it is given a current dataset. *)
Definition sample_analyzer : analyzers.RegressionPerformanceAnalyzer :=
  λ reference_data current_data column_mapping,
    y_true ← pd.getitem reference_data (target column_mapping);
    y_pred ← pd.getitem reference_data (prediction column_mapping);
    '(t, p) ← sklearn._check_reg_targets y_true y_pred;
    let abs_errors := Qabs <$> sklearn.errors t p in
    mret {|
      analyzers.reference_metrics := {|
        analyzers.mean_error := Some (np.mean (sklearn.errors t p));
        analyzers.mean_abs_error := Some (np.mean abs_errors);
        analyzers.mean_abs_perc_error := None;
        analyzers.abs_error_max := Some (np.amax 0 abs_errors);
        analyzers.error_std := None;
        analyzers.abs_error_std := None;
        analyzers.abs_perc_error_std := None;
        analyzers.error_normality := ∅;
        analyzers.underperformance := ∅
      |};
      analyzers.error_bias := (λ _, ∅) <$> current_data
    |}.

(** The inputs of the examples: the current dataset at address 0 and the
    reference dataset at address 1. *)
Definition example_heap : list DataFrame := [example_frame; example_reference].

Definition example_input : InputData :=
  {| reference_data := Some 1; current_data := Some 0;
     column_mapping := example_mapping |}.

(** ** Vocabulary of the further properties *)

(** The difference of two floats; NaN when one of them is. *)
Definition fsub (x y : option Q) : option Q :=
  match x, y with
  | Some a, Some b => Some (a - b)%Q
  | _, _ => None
  end.

(** The mean absolute error over the rows of bin [i], for targets [ts],
    predictions [ps] and the bins [codes] of the rows. *)
Definition bin_mae (codes : list (option nat)) (ts ps : list Q) (i : nat)
    : Q :=
  np.mean (Qabs <$> sklearn.errors (pd.compress (pd.group_mask codes i) ts)
                                   (pd.compress (pd.group_mask codes i) ps)).

(** The message of scikit-learn for an empty array. *)
Definition no_sample : exn :=
  ValueError "Found array with 0 sample(s) while a minimum of 1 is required.".

(** A frame whose target and prediction columns hold the numbers [ts]
    and [ps], one pair per row and at least one row, under names that
    the bin column does not take. *)
Record complete_frame (df : DataFrame) (cm : ColumnMapping)
    (ts ps : list Q) : Prop := {
  complete_target : df !! target cm = Some (Numeric (Some <$> ts));
  complete_prediction : df !! prediction cm = Some (Numeric (Some <$> ps));
  complete_target_name : target cm ≠ "target_binned";
  complete_prediction_name : prediction cm ≠ "target_binned";
  complete_length : length ts = length ps;
  complete_rows : ts ≠ []
}.


(** The reference dataset of an input in a heap: [oref] is the frame the
    input refers to, if it refers to one. *)
Definition reference_frame (data : InputData) (h : list DataFrame)
    (oref : option DataFrame) : Prop :=
  match reference_data data with
  | None => oref = None
  | Some reference => ∃ ref, h !! reference = Some ref ∧ oref = Some ref
  end.

(** Frames for the runs of the examples: without a target column,
    without a prediction column, without rows, with a missing prediction,
    with an empty target bin (the targets 1, 2 and 10 leave the middle one
    of their three bins empty), and with one distinct target value. *)
Definition frame_without_target : DataFrame :=
  <["prediction" := Numeric [Some 1; Some 2]%Q]> ∅.


Definition frame_without_rows : DataFrame :=
  <["target" := Numeric []]> (<["prediction" := Numeric []]> ∅).

Definition frame_with_missing_value : DataFrame :=
  <["target" := Numeric [Some 1; Some 3; Some 10]%Q]>
    (<["prediction" := Numeric [Some 1; None; Some 5]%Q]> ∅).

Definition frame_with_empty_bin : DataFrame :=
  <["target" := Numeric [Some 1; Some 2; Some 10]%Q]>
    (<["prediction" := Numeric [Some 1; Some 1; Some 5]%Q]> ∅).

Definition frame_single_target : DataFrame :=
  <["target" := Numeric [Some 7; Some 7]%Q]>
    (<["prediction" := Numeric [Some 1; Some 9]%Q]> ∅).

(** * Properties *)

(** ** Facts about the libraries *)

Lemma Qlt_bool_iff x y : Qlt_bool x y = true ↔ (x < y)%Q.
Proof.
  unfold Qlt_bool. rewrite negb_true_iff, <- not_true_iff_false, Qle_bool_iff.
  split; [apply Qnot_le_lt | apply Qlt_not_le].
Qed.

Lemma Qlt_bool_false x y : Qlt_bool x y = false ↔ (y <= x)%Q.
Proof.
  unfold Qlt_bool. rewrite negb_false_iff. apply Qle_bool_iff.
Qed.

(** *** Least and greatest value *)

Lemma amin_le_init x xs : (np.amin x xs <= x)%Q.
Proof.
  unfold np.amin. revert x. induction xs as [|y ys IH]; intros x; simpl.
  - apply Qle_refl.
  - eapply Qle_trans; [apply IH | apply Q.le_min_l].
Qed.

Lemma amin_le x xs y : y ∈ x :: xs → (np.amin x xs <= y)%Q.
Proof.
  unfold np.amin. revert x. induction xs as [|z zs IH]; intros x Hy; simpl.
  - apply list_elem_of_singleton in Hy as ->. apply Qle_refl.
  - apply elem_of_cons in Hy as [->|Hy].
    + eapply Qle_trans; [apply amin_le_init | apply Q.le_min_l].
    + apply elem_of_cons in Hy as [->|Hy].
      * eapply Qle_trans; [apply amin_le_init | apply Q.le_min_r].
      * apply IH. by right.
Qed.

Lemma amax_ge_init x xs : (x <= np.amax x xs)%Q.
Proof.
  unfold np.amax. revert x. induction xs as [|y ys IH]; intros x; simpl.
  - apply Qle_refl.
  - eapply Qle_trans; [apply Q.le_max_l | apply IH].
Qed.

Lemma amax_ge x xs y : y ∈ x :: xs → (y <= np.amax x xs)%Q.
Proof.
  unfold np.amax. revert x. induction xs as [|z zs IH]; intros x Hy; simpl.
  - apply list_elem_of_singleton in Hy as ->. apply Qle_refl.
  - apply elem_of_cons in Hy as [->|Hy].
    + eapply Qle_trans; [apply Q.le_max_l | apply amax_ge_init].
    + apply elem_of_cons in Hy as [->|Hy].
      * eapply Qle_trans; [apply Q.le_max_r | apply amax_ge_init].
      * apply IH. by right.
Qed.

Lemma amin_le_amax x xs : (np.amin x xs <= np.amax x xs)%Q.
Proof.
  eapply Qle_trans; [apply amin_le_init | apply amax_ge_init].
Qed.

(** *** Equally spaced edges *)

Lemma inject_Z_S_pos n : (0 < inject_Z (Z.of_nat (S n)))%Q.
Proof. change 0%Q with (inject_Z 0). rewrite <- Zlt_Qlt. lia. Qed.

Lemma inject_Z_S_nonzero n : ¬ (inject_Z (Z.of_nat (S n)) == 0)%Q.
Proof. intros H. pose proof (inject_Z_S_pos n) as Hp. rewrite H in Hp. by apply Qlt_irrefl in Hp. Qed.

Lemma linspace_length a b num : length (np.linspace a b num) = num.
Proof.
  destruct num as [|[|n]]; simpl; [done..|].
  rewrite length_app, length_map, length_seq. simpl. lia.
Qed.

(** The [i]-th of [n + 1] equally spaced points, up to equality of
    fractions. *)
Lemma linspace_lookup a b n i e :
  np.linspace a b (S (S n)) !! i = Some e →
  (e == a + inject_Z (Z.of_nat i) * ((b - a) / inject_Z (Z.of_nat (S n))))%Q.
Proof.
  unfold np.linspace. intros Hi.
  apply lookup_app_Some in Hi as [Hi|[Hlen Hi]].
  - rewrite list_lookup_fmap in Hi.
    destruct (seq 0 (S n) !! i) as [j|] eqn:Hj; [|done].
    apply lookup_seq in Hj as [-> _]. simpl in Hi. by injection Hi as <-.
  - rewrite length_map, length_seq in *.
    apply list_lookup_singleton_Some in Hi as [Hi <-].
    assert (i = S n) as -> by lia.
    field. apply inject_Z_S_nonzero.
Qed.

(** Equally spaced points between [a] and a greater [b] increase. *)
Lemma linspace_increasing a b num i j ei ej :
  (a < b)%Q →
  np.linspace a b num !! i = Some ei →
  np.linspace a b num !! j = Some ej →
  i < j → (ei < ej)%Q.
Proof.
  intros Hab Hi Hj Hij.
  destruct num as [|[|n]]; [done| |].
  - apply lookup_lt_Some in Hj. simpl in Hj. lia.
  - apply linspace_lookup in Hi, Hj. rewrite Hi, Hj.
    assert (0 < (b - a) / inject_Z (Z.of_nat (S n)))%Q as Hstep.
    { apply Qlt_shift_div_l; [apply inject_Z_S_pos|]. lra. }
    assert (inject_Z (Z.of_nat i) < inject_Z (Z.of_nat j))%Q as Hlt.
    { rewrite <- Zlt_Qlt. lia. }
    nra.
Qed.

(** The shape of two or more equally spaced points. *)
Lemma linspace_shape a b n :
  ∃ e0 es, np.linspace a b (S (S n)) = e0 :: es ++ [b] ∧ (e0 == a)%Q
           ∧ length es = n.
Proof.
  eexists _, (map _ (seq 1 n)). split; [|split].
  - unfold np.linspace. rewrite <- cons_seq. rewrite fmap_cons. reflexivity.
  - simpl. ring.
  - by rewrite length_map, length_seq.
Qed.

Lemma n_equal_bins_pos `{!np.DoaneRule} a : 0 < np.n_equal_bins a.
Proof.
  unfold np.n_equal_bins. destruct a; [lia|].
  destruct (_ && _); lia.
Qed.

(** *** Histogram counts *)

Lemma Zsum_cons x l : Zsum (x :: l) = (x + Zsum l)%Z.
Proof. reflexivity. Qed.

Lemma diff_cons x y l : np.diff (x :: y :: l) = (y - x)%Z :: np.diff (y :: l).
Proof. reflexivity. Qed.

Lemma last_cons_default {A} (x d : A) l : List.last (x :: l) d = List.last l x.
Proof.
  revert x d. induction l as [|y l IH]; intros x d; [done|].
  change (List.last (x :: y :: l) d) with (List.last (y :: l) d).
  by rewrite !IH.
Qed.

(** The differences of consecutive entries add up to last minus first. *)
Lemma Zsum_diff x l : Zsum (np.diff (x :: l)) = (List.last l x - x)%Z.
Proof.
  revert x. induction l as [|y l IH]; intros x.
  - simpl. lia.
  - rewrite diff_cons, Zsum_cons, IH, last_cons_default. lia.
Qed.

Lemma length_diff x l : length (np.diff (x :: l)) = length l.
Proof.
  revert x. induction l as [|y l IH]; intros x; [done|].
  rewrite diff_cons, !length_cons. by rewrite IH.
Qed.

Lemma search_sorted_inclusive_snoc a l x :
  np._search_sorted_inclusive a (l ++ [x])
  = map (np.count_below a) l ++ [np.count_not_above a x].
Proof.
  unfold np._search_sorted_inclusive.
  rewrite removelast_last, length_app. simpl.
  replace (length l + 1 - 1) with (length l) by lia.
  by rewrite drop_app_length.
Qed.

Lemma filter_none {A} (P : A → Prop) `{∀ x, Decision (P x)} (l : list A) :
  (∀ x, x ∈ l → ¬ P x) → filter P l = [].
Proof.
  induction l as [|y l IH]; intros Hall; [done|].
  rewrite filter_cons_False by (apply Hall; left).
  apply IH. intros x Hx. apply Hall. by right.
Qed.

Lemma filter_all {A} (P : A → Prop) `{∀ x, Decision (P x)} (l : list A) :
  (∀ x, x ∈ l → P x) → filter P l = l.
Proof.
  induction l as [|y l IH]; intros Hall; [done|].
  rewrite filter_cons_True by (apply Hall; left).
  f_equal. apply IH. intros x Hx. apply Hall. by right.
Qed.

Lemma elem_of_omap_id {A} (a : list (option A)) x :
  x ∈ omap id a ↔ Some x ∈ a.
Proof.
  rewrite list_elem_of_omap. split.
  - intros (y & Hy & Heq). simpl in Heq. by subst.
  - intros Hx. by exists (Some x).
Qed.

Lemma count_below_none a v :
  (∀ x, Some x ∈ a → (v <= x)%Q) → np.count_below a v = 0%Z.
Proof.
  intros Hall. unfold np.count_below. rewrite filter_none; [done|].
  intros x Hx%elem_of_omap_id Hlt%Qlt_bool_iff.
  apply Hall in Hx. lra.
Qed.

Lemma count_not_above_all a v :
  (∀ x, Some x ∈ a → (x <= v)%Q) →
  np.count_not_above a v = Z.of_nat (length (omap id a)).
Proof.
  intros Hall. unfold np.count_not_above. rewrite filter_all; [done|].
  intros x Hx%elem_of_omap_id. apply Qle_bool_iff. by apply Hall.
Qed.

(** An array without NaN lists its values. *)
Lemma finite_values_Some a vs :
  np.finite_values a = Some vs → a = Some <$> vs.
Proof.
  unfold np.finite_values. revert vs.
  induction a as [|[x|] a IH]; intros vs Hvs; simpl in *.
  - by injection Hvs as <-.
  - destruct (mapM id a) as [vs'|] eqn:Hm; [|done].
    simpl in Hvs. injection Hvs as <-. by rewrite (IH vs').
  - done.
Qed.

Lemma omap_id_Some {A} (vs : list A) : omap id (Some <$> vs) = vs.
Proof. induction vs as [|v vs IH]; [done|]. cbn. by f_equal. Qed.

(** The outer edges enclose the sample and differ. *)
Lemma get_outer_edges_inr a first_edge last_edge :
  a ≠ [] →
  np._get_outer_edges a = inr (first_edge, last_edge) →
  ∃ vs, np.finite_values a = Some vs ∧ vs ≠ [] ∧
    (first_edge < last_edge)%Q ∧
    ∀ x, x ∈ vs → (first_edge <= x <= last_edge)%Q.
Proof.
  intros Hne. unfold np._get_outer_edges.
  destruct a as [|a0 a]; [done|].
  destruct (np.finite_values (a0 :: a)) as [[|x xs]|] eqn:Hfin; [done| |done].
  intros Hedges. exists (x :: xs). split; [done|]. split; [done|].
  pose proof (amin_le_amax x xs) as Hmm.
  destruct (Qeq_bool _ _) eqn:Heq; injection Hedges as <- <-.
  - apply Qeq_bool_iff in Heq. split; [lra|].
    intros y Hy. pose proof (amin_le x xs y Hy). pose proof (amax_ge x xs y Hy).
    lra.
  - apply Qeq_bool_neq in Heq. split.
    + destruct (Qlt_le_dec (np.amin x xs) (np.amax x xs)) as [|Hle]; [done|].
      exfalso. apply Heq. by apply Qle_antisym.
    + intros y Hy. split; [by apply amin_le | by apply amax_ge].
Qed.

Lemma decreases_false v :
  (∀ i x y, v !! i = Some x → v !! S i = Some y → (x <= y)%Q) →
  np.decreases v = false.
Proof.
  induction v as [|x [|y v] IH]; intros Hinc; [done..|].
  change (np.decreases (x :: y :: v))
    with (Qlt_bool y x || np.decreases (y :: v)).
  apply orb_false_intro.
  - apply Qlt_bool_false. by apply (Hinc 0).
  - apply IH. intros i a b Ha Hb. by apply (Hinc (S i)).
Qed.

(** The edges chosen for [bins="doane"]: two or more, increasing, from
    the least to the greatest value of a sample without NaN. *)
Lemma histogram_bin_edges_inr `{!np.DoaneRule} a edges :
  a ≠ [] →
  np.histogram_bin_edges a = inr edges →
  ∃ vs e0 es first_edge last_edge,
    np.finite_values a = Some vs ∧ vs ≠ [] ∧
    edges = e0 :: es ++ [last_edge] ∧ (e0 == first_edge)%Q ∧
    S (length es) = np.n_equal_bins vs ∧
    (∀ x, x ∈ vs → (first_edge <= x <= last_edge)%Q) ∧
    (∀ i j ei ej, edges !! i = Some ei → edges !! j = Some ej →
                  i < j → (ei < ej)%Q).
Proof.
  intros Hne. unfold np.histogram_bin_edges.
  destruct (np._get_outer_edges a) as [e|[first_edge last_edge]] eqn:Hout;
    [done|].
  cbn. intros [= <-].
  apply get_outer_edges_inr in Hout as (vs & Hvs & Hvne & Hlt & Hin); [|done].
  rewrite Hvs. cbn.
  pose proof (n_equal_bins_pos vs) as Hpos.
  destruct (np.n_equal_bins vs) as [|n] eqn:Hn; [lia|].
  replace (S n + 1) with (S (S n)) by lia.
  destruct (linspace_shape first_edge last_edge n) as (e0 & es & Hshape & He0 & Hlen).
  exists vs, e0, es, first_edge, last_edge.
  rewrite <- Hshape. repeat split; try done.
  - by rewrite Hlen.
  - by apply Hin.
  - by apply Hin.
  - intros i j ei ej. by apply linspace_increasing.
Qed.

Lemma increasing_not_decreases v :
  (∀ i j ei ej, v !! i = Some ei → v !! j = Some ej → i < j → (ei < ej)%Q) →
  np.decreases v = false.
Proof.
  intros Hinc. apply decreases_false. intros i x y Hx Hy.
  apply Qlt_le_weak. apply (Hinc i (S i)); [done..|lia].
Qed.

(** A sample without NaN always gets its edges and its histogram. *)
Lemma histogram_doane_returns `{!np.DoaneRule} a vs :
  np.finite_values a = Some vs →
  ∃ edges counts,
    np.histogram_bin_edges a = inr edges ∧
    np.histogram a edges = inr (counts, edges).
Proof.
  intros Hvs. unfold np.histogram_bin_edges.
  assert (∃ f l, np._get_outer_edges a = inr (f, l) ∧ (f < l)%Q)
    as (f & l & Hout & Hlt).
  { unfold np._get_outer_edges. destruct a as [|a0 a].
    - exists 0%Q, 1%Q. split; [done|]. lra.
    - rewrite Hvs. destruct vs as [|x xs].
      { apply finite_values_Some in Hvs. done. }
      pose proof (amin_le_amax x xs) as Hmm.
      destruct (Qeq_bool _ _) eqn:Heq; eexists _, _; (split; [done|]).
      + apply Qeq_bool_iff in Heq. lra.
      + apply Qeq_bool_neq in Heq.
        destruct (Qlt_le_dec (np.amin x xs) (np.amax x xs)) as [|Hle]; [done|].
        exfalso. apply Heq. by apply Qle_antisym. }
  rewrite Hout. cbn. eexists _, _. split; [done|].
  unfold np.histogram. rewrite increasing_not_decreases; [done|].
  intros i j ei ej. by apply linspace_increasing.
Qed.

(** The counts of a histogram over the Doane edges: one per bin, and
    together they count every value of the sample. *)
Lemma histogram_doane_total `{!np.DoaneRule} a edges counts edges' :
  a ≠ [] →
  np.histogram_bin_edges a = inr edges →
  np.histogram a edges = inr (counts, edges') →
  edges' = edges ∧ length edges = S (length counts) ∧ 0 < length counts ∧
  Zsum counts = Z.of_nat (length a).
Proof.
  intros Hne Hedges Hhist.
  apply histogram_bin_edges_inr in Hedges
    as (vs & e0 & es & f & l & Hvs & Hvne & -> & He0 & Hn & Hin & Hinc); [|done].
  unfold np.histogram in Hhist.
  destruct (np.decreases _); [done|]. injection Hhist as <- <-.
  split; [done|].
  rewrite app_comm_cons, search_sorted_inclusive_snoc. cbn [map app].
  rewrite length_diff, Zsum_diff.
  rewrite !length_app, !length_cons, length_app, length_map. cbn [length].
  split; [lia|]. split; [lia|].
  rewrite last_last.
  apply finite_values_Some in Hvs as ->.
  rewrite count_below_none, count_not_above_all.
  - rewrite omap_id_Some, length_fmap. lia.
  - intros x Hx. apply list_elem_of_fmap in Hx as (y & [= ->] & Hy).
    by apply Hin.
  - intros x Hx. apply list_elem_of_fmap in Hx as (y & [= ->] & Hy).
    rewrite He0. by apply Hin.
Qed.

(** *** Quantization by [pd.cut] *)

Lemma widen_pos x : (0 < (if Qeq_bool x 0 then 0.001 else 0.001 * Qabs x))%Q.
Proof.
  destruct (Qeq_bool x 0) eqn:Hx; [lra|].
  apply Qeq_bool_neq in Hx.
  apply (Qabs_case x (λ y, 0 < 0.001 * y)%Q); intros Hs.
  - assert (0 < x)%Q; [|lra].
    destruct (Qlt_le_dec 0 x); [done|]. exfalso. apply Hx. by apply Qle_antisym.
  - assert (x < 0)%Q; [|lra].
    destruct (Qlt_le_dec x 0); [done|]. exfalso. apply Hx. by apply Qle_antisym.
Qed.

(** The edges of [pd.cut]: one more than bins, increasing, starting
    below the least value and ending at or above the greatest. *)
Lemma cut_edges_shape mn mx bins :
  0 < bins → (mn <= mx)%Q →
  ∃ e0 es last_edge,
    pd.cut_edges mn mx bins = e0 :: es ++ [last_edge] ∧
    S (length es) = bins ∧
    (e0 < mn)%Q ∧ (mx <= last_edge)%Q ∧
    increasing (pd.cut_edges mn mx bins).
Proof.
  intros Hbins Hle. unfold pd.cut_edges.
  destruct bins as [|n]; [lia|]. replace (S n + 1) with (S (S n)) by lia.
  destruct (Qeq_bool mn mx) eqn:Heq.
  - pose proof (widen_pos mn) as Hmn. pose proof (widen_pos mx) as Hmx.
    set (wmn := if Qeq_bool mn 0 then _ else _) in *.
    set (wmx := if Qeq_bool mx 0 then _ else _) in *.
    destruct (linspace_shape (mn - wmn) (mx + wmx) n)
      as (e0 & es & Hshape & He0 & Hlen).
    exists e0, es, (mx + wmx)%Q. rewrite Hshape. repeat split; try done.
    + lia.
    + lra.
    + lra.
    + rewrite <- Hshape. intros i j x y. apply linspace_increasing. lra.
  - apply Qeq_bool_neq in Heq.
    assert (mn < mx)%Q as Hlt.
    { destruct (Qlt_le_dec mn mx); [done|]. exfalso. apply Heq.
      by apply Qle_antisym. }
    destruct (linspace_shape mn mx n) as (e0 & es & Hshape & He0 & Hlen).
    pose proof (linspace_increasing mn mx (S (S n))) as Hinc.
    rewrite Hshape in *.
    exists (e0 - (mx - mn) * 0.001)%Q, es, mx. repeat split; try done.
    + lia.
    + lra.
    + lra.
    + intros i j x y Hi Hj Hij.
      destruct j as [|j]; [lia|]. destruct i as [|i].
      * injection Hi as <-.
        assert (e0 < y)%Q; [|lra]. by apply (Hinc 0 (S j)); [| | |lia].
      * by apply (Hinc (S i) (S j)).
Qed.

Lemma searchsorted_left_lt bins x b :
  b ∈ bins → (x <= b)%Q → pd.searchsorted_left bins x < length bins.
Proof.
  induction bins as [|c bins IH]; intros Hb Hle; [by apply elem_of_nil in Hb|].
  simpl. destruct (Qlt_bool c x) eqn:Hc; [|lia].
  apply elem_of_cons in Hb as [->|Hb].
  - apply Qlt_bool_iff in Hc. lra.
  - specialize (IH Hb Hle). lia.
Qed.

(** A value between the outer edges falls in one of the bins. *)
Lemma bin_code_Some e0 es last_edge q :
  (e0 < q)%Q → (q <= last_edge)%Q →
  ∃ i, pd.bin_code (e0 :: es ++ [last_edge]) (Some q) = Some i
       ∧ i < S (length es).
Proof.
  intros Hlo Hhi. unfold pd.bin_code.
  pose proof (searchsorted_left_lt (es ++ [last_edge]) q last_edge) as Hlt.
  cbn [pd.searchsorted_left].
  apply Qlt_bool_iff in Hlo. rewrite Hlo.
  rewrite bool_decide_eq_false_2 by lia.
  rewrite length_cons, length_app in *. cbn [length] in *.
  rewrite bool_decide_eq_false_2.
  - eexists. split; [done|].
    assert (pd.searchsorted_left (es ++ [last_edge]) q < length es + 1).
    { apply Hlt; [|done]. apply elem_of_app. right. by left. }
    lia.
  - assert (pd.searchsorted_left (es ++ [last_edge]) q < length es + 1).
    { apply Hlt; [|done]. apply elem_of_app. right. by left. }
    lia.
Qed.

Lemma removelast_lookup {A} (l : list A) i x :
  removelast l !! i = Some x → l !! i = Some x.
Proof.
  rewrite removelast_firstn_len. intros H. by apply lookup_take_Some in H as [? _].
Qed.

Lemma length_removelast {A} (l : list A) :
  length (removelast l) = pred (length l).
Proof. rewrite removelast_firstn_len, length_take. lia. Qed.

Lemma length_from_breaks breaks :
  length (pd.from_breaks breaks) = pred (length breaks).
Proof.
  unfold pd.from_breaks.
  rewrite length_zip_with, length_removelast.
  destruct breaks; simpl; lia.
Qed.

(** Category [i] lies between edge [i] and edge [i + 1]. *)
Lemma from_breaks_lookup breaks i c :
  pd.from_breaks breaks !! i = Some c →
  breaks !! i = Some (left c) ∧ breaks !! S i = Some (right c).
Proof.
  unfold pd.from_breaks. intros Hc.
  apply lookup_zip_with_Some in Hc as (l & r & -> & Hl & Hr).
  apply removelast_lookup in Hl. rewrite lookup_tail in Hr. done.
Qed.

(** What a successful [pd.cut] returns. *)
Lemma cut_inr s bins binned :
  pd.cut s bins = inr binned →
  ∃ values q qs,
    s = Numeric values ∧ 0 < bins ∧ omap id values = q :: qs ∧
    binned =
      let edges := pd.cut_edges (np.amin q qs) (np.amax q qs) bins in
      Categorical (pd.from_breaks edges) (map (pd.bin_code edges) values).
Proof.
  unfold pd.cut. destruct s as [values|]; [|done].
  case_bool_decide; [done|].
  destruct values as [|v values]; [done|].
  destruct (omap id (v :: values)) as [|q qs] eqn:Hq.
  { case_bool_decide; done. }
  intros [= <-]. exists (v :: values), q, qs. repeat split; try done. lia.
Qed.

(** [pd.cut] makes as many categories as it is asked bins, with
    increasing lower edges, and puts every number of the column in one
    of them. *)
Lemma cut_categories values bins cats codes :
  pd.cut (Numeric values) bins = inr (Categorical cats codes) →
  length cats = bins ∧
  increasing (left <$> cats) ∧
  length codes = length values ∧
  (∀ j q, values !! j = Some (Some q) →
          ∃ i, codes !! j = Some (Some i) ∧ i < bins).
Proof.
  intros Hcut. apply cut_inr in Hcut as (vs & q & qs & [= <-] & Hb & Hq & Heq).
  cbn zeta in Heq. injection Heq as -> ->.
  destruct (cut_edges_shape (np.amin q qs) (np.amax q qs) bins)
    as (e0 & es & l & Hshape & Hlen & Hlo & Hhi & Hinc);
    [done|apply amin_le_amax|].
  split; [|split; [|split]].
  - rewrite length_from_breaks, Hshape, length_cons, length_app. simpl. lia.
  - intros i j x y Hi Hj Hij.
    rewrite list_lookup_fmap in Hi, Hj.
    destruct (pd.from_breaks _ !! i) as [ci|] eqn:Hci; [|done].
    destruct (pd.from_breaks _ !! j) as [cj|] eqn:Hcj; [|done].
    injection Hi as <-. injection Hj as <-.
    apply from_breaks_lookup in Hci as [Hci _], Hcj as [Hcj _].
    by apply (Hinc i j).
  - by rewrite length_map.
  - intros j x Hj.
    assert (x ∈ q :: qs) as Hx.
    { rewrite <- Hq. apply elem_of_omap_id. by eapply list_elem_of_lookup_2. }
    destruct (bin_code_Some e0 es l x) as (i & Hi & Hlt).
    + pose proof (amin_le q qs x Hx). lra.
    + pose proof (amax_ge q qs x Hx). lra.
    + exists i. split; [|lia].
      change (map ?f ?l) with (f <$> l).
      rewrite list_lookup_fmap. by rewrite  Hj, Hshape, <- Hi.
Qed.

(** *** Running a function over a list *)

Lemma mapM_res_inr {A B} (f : A → res B) l r :
  mapM f l = inr r ↔ Forall2 (λ a b, f a = inr b) l r.
Proof.
  revert r. induction l as [|x l IH]; intros r.
  - cbn. split.
    + intros [= <-]. constructor.
    + intros Hr. by inversion Hr.
  - cbn. split.
    + destruct (f x) as [e|y] eqn:Hy; [done|]. cbn.
      destruct (mapM f l) as [e|k] eqn:Hk; [done|]. cbn.
      intros [= <-]. constructor; [done|]. by apply IH.
    + intros Hr. inversion Hr as [|? y ? k Hy Hk]; subst.
      rewrite Hy. cbn. apply IH in Hk. rewrite Hk. done.
Qed.

(** *** Counting and ordering the categories *)

#[global] Instance by_index_total {A} : Total (@pd.by_index A).
Proof. intros x y. unfold pd.by_index. lia. Qed.

#[global] Instance by_index_trans {A} : Transitive (@pd.by_index A).
Proof. intros x y z. unfold pd.by_index. lia. Qed.

Lemma positional_sorted {A} (s : pd.Indexed A) n :
  (∀ i e, s !! i = Some e → e.1.1 = n + i) →
  StronglySorted pd.by_index s.
Proof.
  revert n. induction s as [|e s IH]; intros n Hpos; constructor.
  - apply (IH (S n)). intros i e' He'.
    rewrite (Hpos (S i) e' He'). lia.
  - apply Forall_forall. intros e' He'.
    apply list_elem_of_lookup in He' as [i Hi].
    unfold pd.by_index.
    rewrite (Hpos 0 e eq_refl), (Hpos (S i) e' Hi). lia.
Qed.

(** Sorting by index undoes any reordering of positional entries; in
    particular the order by count that [value_counts] produces. *)
Lemma sort_index_positional {A} (s s' : pd.Indexed A) :
  positional s → s' ≡ₚ s → pd.sort_index s' = s.
Proof.
  intros Hpos Hperm. unfold pd.sort_index.
  apply (StronglySorted_unique_strong pd.by_index).
  - intros x1 x2 Hx1 Hx2 H12 H21.
    rewrite merge_sort_Permutation, Hperm in Hx1.
    apply list_elem_of_lookup in Hx1 as [i1 Hi1].
    apply list_elem_of_lookup in Hx2 as [i2 Hi2].
    pose proof (Hpos _ _ Hi1). pose proof (Hpos _ _ Hi2).
    unfold pd.by_index in *.
    assert (i1 = i2) as -> by lia. congruence.
  - apply StronglySorted_merge_sort; apply _.
  - apply (positional_sorted s 0). intros i e He. by rewrite (Hpos i e He).
  - by rewrite merge_sort_Permutation.
Qed.

(** [value_counts().sort_index().items()]: the categories in order, each
    with its number of rows. *)
Lemma value_counts_sorted_items cats codes counts :
  pd.value_counts (Categorical cats codes) = inr counts →
  pd.items (pd.sort_index counts)
  = imap (λ i c, (c, category_count codes i)) cats.
Proof.
  cbn. intros [= <-].
  rewrite (sort_index_positional
             (imap (λ i c, ((i, c), category_count codes i)) cats)).
  - unfold pd.items. change (map ?f ?l) with (f <$> l).
    rewrite fmap_imap. done.
  - intros i e He. apply list_lookup_imap_Some in He as (c & _ & ->). done.
  - apply merge_sort_Permutation.
Qed.

Lemma Zsum_snoc l x : Zsum (l ++ [x]) = (Zsum l + x)%Z.
Proof.
  induction l as [|y l IH]; [cbn; lia|].
  rewrite <- app_comm_cons, !Zsum_cons, IH. lia.
Qed.

(** The counts of the first [k] categories add up to the number of rows
    that have one of these categories. *)
Lemma category_counts_total codes k :
  Zsum (category_count codes <$> seq 0 k)
  = Z.of_nat (length (filter (has_code_below k) codes)).
Proof.
  induction k as [|k IH].
  - cbn. rewrite filter_none; [done|]. intros c _ (i & _ & Hi). lia.
  - rewrite seq_S, fmap_app. cbn [fmap list_fmap].
    rewrite Zsum_snoc, IH. unfold category_count. cbn [plus].
    clear. induction codes as [|c codes IHc]; [done|].
    rewrite !filter_cons.
    assert (has_code_below (S k) c ↔ has_code_below k c ∨ c = Some k) as HS.
    { unfold has_code_below. split.
      - intros (i & -> & Hi). destruct (decide (i = k)) as [->|]; [by right|].
        left. exists i. split; [done|lia].
      - intros [(i & -> & Hi)| ->]; eexists; (split; [done|lia]). }
    assert (has_code_below k c → c ≠ Some k) as Hne.
    { intros (i & -> & Hi) [= ->]. lia. }
    repeat case_decide; cbn [length]; try lia; tauto.
Qed.

(** ** Running heap code *)

Lemma bind_inr {A B} (m : M A) (k : A → M B) h b h' :
  (m ≫= k) h = (inr b, h') ↔ ∃ a h1, m h = (inr a, h1) ∧ k a h1 = (inr b, h').
Proof.
  unfold mbind, M_bind. split.
  - destruct (m h) as [[e|a] h1]; [done|]. intros Hk. by exists a, h1.
  - intros (a & h1 & -> & Hk). done.
Qed.

Lemma bind_run {A B} (m : M A) (k : A → M B) h a h1 :
  m h = (inr a, h1) → (m ≫= k) h = k a h1.
Proof. unfold mbind, M_bind. by intros ->. Qed.

Lemma lift_inr {A} (r : res A) h a h' :
  lift r h = (inr a, h') ↔ r = inr a ∧ h' = h.
Proof. unfold lift. split; [by intros [= -> ->] | by intros [-> ->]]. Qed.

Lemma read_inr l h df h' :
  read l h = (inr df, h') ↔ h !! l = Some df ∧ h' = h.
Proof.
  unfold read. destruct (h !! l) as [d|]; split.
  - by intros [= -> ->].
  - by intros [[= ->] ->].
  - done.
  - by intros [[=] _].
Qed.

Lemma getitem_inr l key h s h' :
  getitem l key h = (inr s, h') ↔
  ∃ df, h !! l = Some df ∧ df !! key = Some s ∧ h' = h.
Proof.
  unfold getitem. rewrite bind_inr. split.
  - intros (df & h1 & (Hl & ->)%read_inr & (Hs & ->)%lift_inr).
    exists df. split; [done|]. split; [|done].
    unfold pd.getitem in Hs. destruct (df !! key); [|done]. by injection Hs as ->.
  - intros (df & Hl & Hs & ->). exists df, h. split; [by apply read_inr|].
    apply lift_inr. split; [|done]. unfold pd.getitem. by rewrite Hs.
Qed.

Lemma copy_inr l h l' h' :
  copy l h = (inr l', h') ↔
  ∃ df, h !! l = Some df ∧ l' = length h ∧ h' = h ++ [df].
Proof.
  unfold copy. rewrite bind_inr. split.
  - intros (df & h1 & (Hl & ->)%read_inr & Ha). exists df.
    unfold alloc in Ha. by injection Ha as <- <-.
  - intros (df & Hl & -> & ->). exists df, h. split; [by apply read_inr|done].
Qed.

Lemma setitem_inr l key value h u h' :
  setitem l key value h = (inr u, h') ↔
  ∃ df, h !! l = Some df ∧ h' = <[l := <[key := value]> df]> h.
Proof.
  unfold setitem. rewrite bind_inr. split.
  - intros (df & h1 & (Hl & ->)%read_inr & Hw). exists df.
    unfold write in Hw. by injection Hw as <-.
  - intros (df & Hl & ->). exists df, h. split; [by apply read_inr|].
    unfold write. by destruct u.
Qed.

(** The object allocated last. *)
Lemma lookup_last_alloc (h : list DataFrame) df : (h ++ [df]) !! length h = Some df.
Proof. by rewrite list_lookup_middle. Qed.

Lemma insert_last_alloc (h : list DataFrame) df df' :
  <[length h := df']> (h ++ [df]) = h ++ [df'].
Proof.
  rewrite insert_app_r_alt by lia. by rewrite Nat.sub_diag.
Qed.

(** Steps of a run on the object allocated last. *)
Lemma run_lift {A B} (r : res A) a (k : A → M B) h :
  r = inr a → (lift r ≫= k) h = k a h.
Proof. intros ->. done. Qed.

Lemma run_copy {B} l (h : list DataFrame) df (k : nat → M B) :
  h !! l = Some df → (copy l ≫= k) h = k (length h) (h ++ [df]).
Proof. intros Hl. apply bind_run, copy_inr. by exists df. Qed.

Lemma run_getitem_last {B} (h : list DataFrame) d key s (k : Series → M B) :
  d !! key = Some s →
  (getitem (length h) key ≫= k) (h ++ [d]) = k s (h ++ [d]).
Proof.
  intros Hs. apply bind_run, getitem_inr. exists d.
  by rewrite lookup_last_alloc.
Qed.

Lemma run_setitem_last {B} (h : list DataFrame) d key value (k : () → M B) :
  (setitem (length h) key value ≫= k) (h ++ [d])
  = k () (h ++ [<[key := value]> d]).
Proof.
  apply bind_run, setitem_inr. exists d.
  by rewrite lookup_last_alloc, insert_last_alloc.
Qed.

Lemma run_read_last {B} (h : list DataFrame) d (k : DataFrame → M B) :
  (read (length h) ≫= k) (h ++ [d]) = k d (h ++ [d]).
Proof. apply bind_run, read_inr. by rewrite lookup_last_alloc. Qed.

Section binner.
Context `{!np.DoaneRule}.

Lemma histogram_inr data edges counts edges' :
  np.histogram data edges = inr (counts, edges') → edges' = edges.
Proof.
  unfold np.histogram. destruct (np.decreases edges); [done|].
  by intros [= _ <-].
Qed.

Lemma sub_inr s1 s2 data :
  pd.sub s1 s2 = inr data →
  ∃ v1 v2, s1 = Numeric v1 ∧ s2 = Numeric v2 ∧ length v1 = length v2.
Proof.
  unfold pd.sub. destruct s1 as [v1|], s2 as [v2|]; try done.
  case_bool_decide; [|done]. intros _. by exists v1, v2.
Qed.

(** A run of [_me_mae_distr] returns exactly when every step does, and
    it leaves the frame with its bin column as a new object. *)
Lemma me_mae_distr_inr l cm h hist bins h' :
  _me_mae_distr l cm h = (inr (hist, bins), h') ↔
  ∃ df tgt pred cats codes data edges counts mae,
    h !! l = Some df ∧
    h' = h ++ [<["target_binned" := Categorical cats codes]> df] ∧
    binner_steps df cm tgt pred cats codes data edges counts mae hist bins.
Proof.
  unfold _me_mae_distr. split.
  - intros Hrun.
    apply bind_inr in Hrun as (l' & h1 & (df & Hl & -> & ->)%copy_inr & Hrun).
    apply bind_inr in Hrun as (s & ? & (? & Hl1 & Hs & ->)%getitem_inr & Hrun).
    rewrite lookup_last_alloc in Hl1. injection Hl1 as <-.
    cbn zeta in Hrun.
    apply bind_inr in Hrun as (s' & ? & (? & Hl1 & Hs' & ->)%getitem_inr & Hrun).
    rewrite lookup_last_alloc in Hl1. injection Hl1 as <-.
    assert (s' = s) as -> by congruence. clear Hs'.
    apply bind_inr in Hrun as (binned & ? & (Hcut & ->)%lift_inr & Hrun).
    apply bind_inr in Hrun as ([] & ? & (? & Hl1 & ->)%setitem_inr & Hrun).
    rewrite lookup_last_alloc in Hl1. injection Hl1 as <-.
    rewrite insert_last_alloc in Hrun.
    apply bind_inr in Hrun as (t & ? & (? & Hl1 & Ht & ->)%getitem_inr & Hrun).
    rewrite lookup_last_alloc in Hl1. injection Hl1 as <-.
    apply bind_inr in Hrun as (p & ? & (? & Hl1 & Hp & ->)%getitem_inr & Hrun).
    rewrite lookup_last_alloc in Hl1. injection Hl1 as <-.
    apply bind_inr in Hrun as (data & ? & (Hsub & ->)%lift_inr & Hrun).
    apply bind_inr in Hrun as (edges & ? & (Hedges & ->)%lift_inr & Hrun).
    apply bind_inr in Hrun as ([counts edges'] & ? & (Hhist & ->)%lift_inr & Hrun).
    apply bind_inr in Hrun as (frame & ? & (Hl1 & ->)%read_inr & Hrun).
    rewrite lookup_last_alloc in Hl1. injection Hl1 as <-.
    apply bind_inr in Hrun as (mae & ? & (Hmae & ->)%lift_inr & Hrun).
    apply bind_inr in Hrun as (tb & ? & (? & Hl1 & Htb & ->)%getitem_inr & Hrun).
    rewrite lookup_last_alloc in Hl1. injection Hl1 as <-.
    rewrite lookup_insert_eq in Htb. injection Htb as <-.
    apply bind_inr in Hrun as (vc & ? & (Hvc & ->)%lift_inr & Hrun).
    cbn zeta in Hrun.
    apply bind_inr in Hrun as (bs & ? & (Hbs & ->)%lift_inr & Hrun).
    injection Hrun as <- <- <-.
    pose proof (histogram_inr _ _ _ _ Hhist) as ->.
    destruct (cut_inr _ _ _ Hcut) as (tgt & q & qs & -> & _ & _ & Hbinned).
    cbn zeta in Hbinned.
    pose proof (sub_inr _ _ _ Hsub) as (v1 & pred & -> & -> & Hlen).
    assert (target cm ≠ "target_binned") as Hnt.
    { intros Heq. rewrite Heq, lookup_insert_eq, Hbinned in Ht. done. }
    assert (prediction cm ≠ "target_binned") as Hnp.
    { intros Heq. rewrite Heq, lookup_insert_eq, Hbinned in Hp. done. }
    rewrite lookup_insert_ne in Ht by done.
    rewrite lookup_insert_ne in Hp by done.
    assert (v1 = tgt) as -> by congruence.
    rewrite Hbinned in *.
    apply value_counts_sorted_items in Hvc. rewrite Hvc in Hbs.
    eexists df, tgt, pred, _, _, data, edges, counts, mae.
    split; [done|]. split; [done|].
    split; done.
  - intros (df & tgt & pred & cats & codes & data & edges & counts & mae
            & Hl & -> & []).
    rewrite (run_copy _ _ _ _ Hl).
    rewrite (run_getitem_last _ _ _ _ _ run_target0). cbn zeta.
    rewrite (run_getitem_last _ _ _ _ _ run_target0).
    rewrite (run_lift _ _ _ _ run_cut0).
    rewrite run_setitem_last.
    rewrite (run_getitem_last _ _ _ (Numeric tgt))
      by (by rewrite lookup_insert_ne).
    rewrite (run_getitem_last _ _ _ (Numeric pred))
      by (by rewrite lookup_insert_ne).
    rewrite (run_lift _ _ _ _ run_sub0).
    rewrite (run_lift _ _ _ _ run_bin_edges0).
    rewrite (run_lift _ _ _ _ run_histogram0).
    rewrite run_read_last.
    rewrite (run_lift _ _ _ _ run_groupby0).
    rewrite (run_getitem_last _ _ _ (Categorical cats codes))
      by (by rewrite lookup_insert_eq).
    erewrite run_lift by reflexivity. cbn zeta.
    rewrite (value_counts_sorted_items cats codes) by done.
    rewrite (run_lift _ _ _ _ run_bins0).
    subst hist. done.
Qed.
End binner.

(** ** Code that works on its own copy *)

Lemma on_last_bind {A B} (m1 m2 : M A) (k1 k2 : A → M B) h1 h2 :
  on_last m1 m2 h1 h2 →
  (∀ a, on_last (k1 a) (k2 a) h1 h2) →
  on_last (m1 ≫= k1) (m2 ≫= k2) h1 h2.
Proof.
  intros Hm Hk d. destruct (Hm d) as (r & d' & H1 & H2).
  unfold mbind, M_bind. rewrite H1, H2.
  destruct r as [e|a]; [by exists (inl e), d'|]. apply Hk.
Qed.

Lemma on_last_ret {A} (a : A) h1 h2 : on_last (mret a) (mret a) h1 h2.
Proof. intros d. by exists (inr a), d. Qed.

Lemma on_last_lift {A} (r : res A) h1 h2 : on_last (lift r) (lift r) h1 h2.
Proof. intros d. by exists r, d. Qed.

Lemma on_last_read h1 h2 :
  on_last (read (length h1)) (read (length h2)) h1 h2.
Proof.
  intros d. exists (inr d), d. unfold read. by rewrite !lookup_last_alloc.
Qed.

Lemma on_last_getitem key h1 h2 :
  on_last (getitem (length h1) key) (getitem (length h2) key) h1 h2.
Proof.
  apply on_last_bind; [apply on_last_read|]. intros df. apply on_last_lift.
Qed.

Lemma on_last_setitem key value h1 h2 :
  on_last (setitem (length h1) key value) (setitem (length h2) key value) h1 h2.
Proof.
  apply on_last_bind; [apply on_last_read|]. intros df d.
  exists (inr ()), (<[key := value]> df). unfold write.
  by rewrite !insert_last_alloc.
Qed.

Lemma appends_bind {A B} (m : M A) (k : A → M B) :
  appends m → (∀ a, appends (k a)) → appends (m ≫= k).
Proof.
  intros Hm Hk h. destruct (Hm h) as [e1 H1].
  unfold mbind, M_bind. destruct (m h) as [[e|a] h1]; simpl in H1; subst h1.
  - by exists e1.
  - destruct (Hk a (h ++ e1)) as [e2 H2]. exists (e1 ++ e2).
    by rewrite H2, app_assoc.
Qed.

Lemma appends_ret {A} (a : A) : appends (mret a).
Proof. intros h. exists []. by rewrite app_nil_r. Qed.

Lemma appends_raise {A} e : appends (@raise A e).
Proof. intros h. exists []. by rewrite app_nil_r. Qed.

Lemma appends_lift {A} (r : res A) : appends (lift r).
Proof. intros h. exists []. by rewrite app_nil_r. Qed.

Lemma appends_read l : appends (read l).
Proof.
  intros h. exists []. unfold read. rewrite app_nil_r. by destruct (h !! l).
Qed.

Lemma appends_getitem l key : appends (getitem l key).
Proof.
  apply appends_bind; [apply appends_read|]. intros df. apply appends_lift.
Qed.

Section binner_heap.
Context `{!np.DoaneRule}.

Lemma me_mae_distr_on_last cm h1 h2 l1 l2 df :
  h1 !! l1 = Some df → h2 !! l2 = Some df →
  ∃ r d', _me_mae_distr l1 cm h1 = (r, h1 ++ [d']) ∧
          _me_mae_distr l2 cm h2 = (r, h2 ++ [d']).
Proof.
  intros Hl1 Hl2. unfold _me_mae_distr.
  rewrite (run_copy _ _ _ _ Hl1), (run_copy _ _ _ _ Hl2).
  match goal with
  | |- ∃ r d', ?m1 _ = _ ∧ ?m2 _ = _ =>
      cut (on_last m1 m2 h1 h2); [intros Hon; apply (Hon df)|]
  end.
  repeat first
    [ apply on_last_ret
    | apply on_last_bind;
      [ first [ apply on_last_lift | apply on_last_getitem
              | apply on_last_setitem | apply on_last_read ]
      | intros ? ]
    | progress cbn zeta ].
Qed.

(** [_me_mae_distr] leaves every object of the heap as it was: it only
    adds its private copy. *)
Lemma me_mae_distr_appends l cm : appends (_me_mae_distr l cm).
Proof.
  intros h. destruct (h !! l) as [df|] eqn:Hl.
  - destruct (me_mae_distr_on_last cm h h l l df Hl Hl) as (r & d' & Hr & _).
    exists [d']. by rewrite Hr.
  - exists []. unfold _me_mae_distr, copy, read, mbind, M_bind.
    rewrite Hl. by rewrite app_nil_r.
Qed.

(** The outcome of [_me_mae_distr] depends on the frame it is given
    only. *)
Lemma me_mae_distr_local cm h1 h2 l1 l2 :
  h1 !! l1 = h2 !! l2 →
  (_me_mae_distr l1 cm h1).1 = (_me_mae_distr l2 cm h2).1.
Proof.
  intros Hl. destruct (h1 !! l1) as [df|] eqn:Hl1.
  - destruct (me_mae_distr_on_last cm h1 h2 l1 l2 df Hl1 (eq_sym Hl))
      as (r & d' & -> & ->). done.
  - unfold _me_mae_distr, copy, read, mbind, M_bind.
    by rewrite Hl1, <- Hl.
Qed.
End binner_heap.

(** *** Subtraction of columns *)

Lemma sub_finite tgt pred data vs :
  pd.sub (Numeric tgt) (Numeric pred) = inr data →
  np.finite_values data = Some vs →
  length tgt = length pred ∧ length data = length tgt ∧
  Forall is_Some tgt ∧ Forall is_Some pred.
Proof.
  unfold pd.sub. case_bool_decide as Hlen; [|done]. intros [= <-] Hfin.
  split; [done|]. split; [by rewrite length_zip_with; lia|].
  apply finite_values_Some in Hfin.
  revert pred vs Hlen Hfin.
  induction tgt as [|t tgt IH]; intros [|p pred] vs Hlen Hfin; try done.
  destruct vs as [|v vs]; [done|]. cbn in Hfin.
  injection Hfin as Hv Hfin. injection Hlen as Hlen.
  destruct (IH pred vs Hlen Hfin) as [Ht Hp].
  destruct t as [t|], p as [p|]; try done.
  split; constructor; done.
Qed.

Lemma valid_rows_all tgt pred :
  length tgt = length pred → Forall is_Some tgt → Forall is_Some pred →
  valid_rows tgt pred = Z.of_nat (length tgt).
Proof.
  intros Hlen Ht Hp. unfold valid_rows. rewrite filter_all.
  - rewrite length_zip_with. f_equal. lia.
  - intros [t p] Hin. apply elem_of_zip_l in Hin as Hl.
    apply elem_of_zip_r in Hin as Hr. cbn.
    rewrite Forall_forall in Ht, Hp. split; [by apply Ht | by apply Hp].
Qed.

(** *** The bins of the histogram *)

Lemma diff_lookup l i c :
  np.diff l !! i = Some c ↔
  ∃ x y, l !! i = Some x ∧ l !! S i = Some y ∧ c = (y - x)%Z.
Proof.
  revert i. induction l as [|x [|y l] IH]; intros i.
  - split; [done|]. by intros (? & ? & ? & _).
  - split; [done|]. intros (? & ? & _ & H & _). done.
  - rewrite diff_cons. destruct i as [|i].
    + cbn. split.
      * intros [= <-]. by exists x, y.
      * intros (? & ? & [= <-] & [= <-] & ->). done.
    + rewrite lookup_cons. cbn [Nat.pred]. rewrite IH. done.
Qed.

Lemma count_between a lo hi :
  (lo <= hi)%Q →
  (np.count_below a hi - np.count_below a lo)%Z = bin_count a lo hi false ∧
  (np.count_not_above a hi - np.count_below a lo)%Z = bin_count a lo hi true.
Proof.
  intros Hle. unfold np.count_below, np.count_not_above, bin_count.
  induction (omap id a) as [|x l [IH1 IH2]]; [done|].
  rewrite !filter_cons.
  destruct (decide (Qlt_bool x hi = true)) as [H1|H1];
    destruct (decide (Qlt_bool x lo = true)) as [H2|H2];
    destruct (decide (Qle_bool x hi = true)) as [H3|H3];
    destruct (decide (in_bin lo hi false x)) as [H4|H4];
    destruct (decide (in_bin lo hi true x)) as [H5|H5];
    cbn [length]; unfold in_bin in *;
    rewrite ?Qlt_bool_iff, ?Qle_bool_iff in *;
    try (split; lia); exfalso;
    try (apply not_true_is_false in H1; apply Qlt_bool_false in H1);
    try (apply not_true_is_false in H2; apply Qlt_bool_false in H2);
    try (rewrite Qle_bool_iff in H3);
    first [ lra | apply H4; split; lra | apply H5; split; lra
          | apply H3; lra | destruct H4; lra | destruct H5; lra ].
Qed.

(** Every count of the histogram over the Doane edges is the number of
    sample values in its bin; only the last bin is closed on the
    right. *)
Lemma histogram_doane_bins `{!np.DoaneRule} a edges counts i lo hi c :
  a ≠ [] →
  np.histogram_bin_edges a = inr edges →
  np.histogram a edges = inr (counts, edges) →
  edges !! i = Some lo → edges !! S i = Some hi → counts !! i = Some c →
  c = bin_count a lo hi (bool_decide (S (S i) = length edges)).
Proof.
  intros Hne Hedges Hhist Hlo Hhi Hc.
  apply histogram_bin_edges_inr in Hedges
    as (vs & e0 & es & f & l & Hvs & Hvne & -> & He0 & Hn & Hin & Hinc); [|done].
  assert (lo <= hi)%Q as Hle.
  { apply Qlt_le_weak. apply (Hinc i (S i)); [done..|lia]. }
  unfold np.histogram in Hhist.
  destruct (np.decreases _); [done|]. injection Hhist as <-.
  rewrite app_comm_cons, search_sorted_inclusive_snoc in Hc.
  apply diff_lookup in Hc as (x & y & Hx & Hy & ->).
  rewrite app_comm_cons in Hlo, Hhi. rewrite app_comm_cons.
  remember (e0 :: es) as pre eqn:Hpre.
  assert (S i ≤ length pre) as Hi.
  { apply lookup_lt_Some in Hhi. rewrite length_app in Hhi. simpl in Hhi. lia. }
  change (map ?f ?l) with (f <$> l) in *.
  rewrite lookup_app_l in Hlo by lia.
  rewrite lookup_app_l in Hx by (rewrite length_fmap; lia).
  rewrite list_lookup_fmap, Hlo in Hx. injection Hx as <-.
  rewrite length_app. cbn [length].
  destruct (decide (S i = length pre)) as [Hlast|Hmid].
  - rewrite bool_decide_eq_true_2 by lia.
    rewrite Hlast in Hhi, Hy.
    rewrite list_lookup_middle in Hhi by done.
    rewrite list_lookup_middle in Hy by (by rewrite length_fmap).
    injection Hhi as <-. injection Hy as <-.
    by apply count_between.
  - rewrite bool_decide_eq_false_2 by lia.
    rewrite lookup_app_l in Hhi by lia.
    rewrite lookup_app_l in Hy by (rewrite length_fmap; lia).
    rewrite list_lookup_fmap, Hhi in Hy. injection Hy as <-.
    by apply count_between.
Qed.

(** *** The groups of the bins *)

Lemma res_bind_inr {A B} (r : res A) (k : A → res B) b :
  r ≫= k = inr b ↔ ∃ a, r = inr a ∧ k a = inr b.
Proof.
  destruct r as [e|a]; cbn; split; try done.
  - by intros (? & [=] & _).
  - intros Hk. by exists a.
  - by intros (? & [= <-] & Hk).
Qed.





(** The entries built from the sorted value counts carry the labels and
    the counts of the value counts, in the same order. *)
Lemma bins_entries (mae : pd.Indexed Q) (vc : list (Interval * Z)) bins :
  mapM (λ '(idx, value), m ← pd.loc mae idx; mret (idx, m, value)) vc
  = inr bins →
  (λ b, (bin_label b, bin_rows b)) <$> bins = vc.
Proof.
  intros Hmap%mapM_res_inr.
  induction Hmap as [|[idx value] b vc bins Hb _ IH]; [done|].
  rewrite fmap_cons, IH. f_equal.
  apply res_bind_inr in Hb as (m & _ & [= <-]). done.
Qed.

(** Name the steps of a run of [_me_mae_distr] that returned. *)
Ltac inv_binner H :=
  apply me_mae_distr_inr in H
    as (df & tgt & pred & cats & codes & data & edges & counts & mae
        & Hl & -> & [Htarget Hprediction Hnt Hnp Hcut Hsub Hedges Hhist
                     Hgroup Hbins Hzip]).

Section binner_claims.
Context `{!np.DoaneRule}.


(** A run of the binner that returns was given a dataset whose rows are
    all valid, and the counts of the signed-error histogram and those of
    [binned_mae] add up to the number of its rows. *)
Lemma counts_sum_on_return l cm h hist bins h' :
  _me_mae_distr l cm h = (inr (hist, bins), h') →
  ∃ df tgt pred,
    h !! l = Some df ∧
    df !! target cm = Some (Numeric tgt) ∧
    df !! prediction cm = Some (Numeric pred) ∧
    valid_rows tgt pred = Z.of_nat (length tgt) ∧
    Zsum (hist.*2) = Z.of_nat (length tgt) ∧
    Zsum (bin_rows <$> bins) = Z.of_nat (length tgt).
Proof.
  intros Hrun. inv_binner Hrun.
  exists df, tgt, pred. do 3 (split; [done|]).
  destruct (cut_inr _ _ _ Hcut) as (? & q & qs & [= <-] & _ & Hq & _).
  assert (tgt ≠ []) as Htgt by (by intros ->).
  destruct (sub_inr _ _ _ Hsub) as (? & ? & [= <-] & [= <-] & Hlen).
  assert (data ≠ []) as Hdata.
  { unfold pd.sub in Hsub. rewrite bool_decide_eq_true_2 in Hsub by done.
    injection Hsub as <-. destruct tgt, pred; done. }
  destruct (histogram_bin_edges_inr _ _ Hdata Hedges)
    as (vs & _ & _ & _ & _ & Hvs & _).
  destruct (sub_finite _ _ _ _ Hsub Hvs) as (_ & Hdlen & Ht & Hp).
  split; [exact (valid_rows_all _ _ Hlen Ht Hp)|].
  destruct (histogram_doane_total _ _ _ _ Hdata Hedges Hhist)
    as (_ & Helen & _ & Hsum).
  split.
  - subst hist.
    replace ((zip_with (λ (x : Z) (y : Q), (y, x)) counts edges).*2)
      with counts; [by rewrite Hsum, Hdlen|].
    clear -Helen. revert edges Helen.
    induction counts as [|c counts IH]; intros [|e edges] Hlen; try done.
    cbn. f_equal. apply IH. by injection Hlen.
  - apply bins_entries in Hbins.
    apply (f_equal (fmap snd)) in Hbins.
    rewrite <- list_fmap_compose in Hbins.
    change (snd ∘ _) with bin_rows in Hbins.
    rewrite Hbins, fmap_imap.
    change (λ n, snd ∘ _) with (λ (n : nat) (_ : Interval), category_count codes n).
    rewrite imap_seq_0, category_counts_total.
    destruct (cut_categories _ _ _ _ Hcut) as (Hcats & _ & Hclen & Hcodes).
    rewrite filter_all; [by rewrite Hclen|].
    intros c (j & Hj)%list_elem_of_lookup.
    destruct (lookup_lt_is_Some_2 tgt j) as [t Ht'].
    { apply lookup_lt_Some in Hj. lia. }
    rewrite Forall_forall in Ht.
    destruct (Ht t) as [x ->]; [by eapply list_elem_of_lookup_2|].
    destruct (Hcodes j x Ht') as (i & Hi & Hlt).
    exists i. rewrite Hcats. split; [congruence|done].
Qed.

(** C4. The code breaks the claim on a dataset with a missing value.
    Of the three rows of [frame_with_missing_value] two are valid (the
    second row has no prediction), so the claim asks for counts that add
    up to 2.  The binner returns no counts: the error of the second row
    is NaN, numpy finds no finite range for the histogram, and the run
    ends with [ValueError]. *)
Theorem C4_missing_value_raises :
  ∃ tgt pred,
    frame_with_missing_value !! target example_mapping
    = Some (Numeric tgt) ∧
    frame_with_missing_value !! prediction example_mapping
    = Some (Numeric pred) ∧
    length tgt = 3 ∧ valid_rows tgt pred = 2%Z ∧
    (_me_mae_distr 0 example_mapping [frame_with_missing_value]).1
    = inl (ValueError "autodetected range is not finite").
Proof. eexists _, _. do 2 (split; [reflexivity|]). by vm_compute. Qed.

(** C7. When the Distribution Binner returns, [signed_error_histogram]
    has exactly one entry per bin of the histogram of the errors: entry
    [i] pairs the left edge of bin [i] with the count of bin [i], the
    left edges increase, and the count of a bin is the number of errors
    that lie in it. *)
Theorem C7_signed_error_histogram l cm h hist bins h' :
  _me_mae_distr l cm h = (inr (hist, bins), h') →
  ∃ df tgt pred data edges counts,
    h !! l = Some df ∧
    df !! target cm = Some tgt ∧ df !! prediction cm = Some pred ∧
    pd.sub tgt pred = inr data ∧
    np.histogram_bin_edges data = inr edges ∧
    np.histogram data edges = inr (counts, edges) ∧
    length edges = S (length counts) ∧
    hist = zip (take (length counts) edges) counts ∧
    increasing (hist.*1) ∧
    ∀ i lo hi c,
      edges !! i = Some lo → edges !! S i = Some hi →
      counts !! i = Some c →
      c = bin_count data lo hi (bool_decide (S (S i) = length edges)).
Proof.
  intros Hrun. inv_binner Hrun.
  exists df, (Numeric tgt), (Numeric pred), data, edges, counts.
  do 6 (split; [done|]).
  destruct (cut_inr _ _ _ Hcut) as (? & q & qs & [= <-] & _ & Hq & _).
  destruct (sub_inr _ _ _ Hsub) as (? & ? & [= <-] & [= <-] & Hlen).
  assert (data ≠ []) as Hdata.
  { unfold pd.sub in Hsub. rewrite bool_decide_eq_true_2 in Hsub by done.
    injection Hsub as <-. destruct tgt, pred; done. }
  destruct (histogram_doane_total _ _ _ _ Hdata Hedges Hhist)
    as (_ & Helen & _ & _).
  assert (hist = zip (take (length counts) edges) counts) as Hpairs.
  { subst hist. clear -Helen. revert edges Helen.
    induction counts as [|c counts IH]; intros [|e edges] Hlen; try done.
    cbn. f_equal. apply IH. by injection Hlen. }
  split; [done|]. split; [done|]. split.
  - rewrite Hpairs, fst_zip by (rewrite length_take; lia).
    destruct (histogram_bin_edges_inr _ _ Hdata Hedges)
      as (_ & _ & _ & _ & _ & _ & _ & _ & _ & _ & _ & Hinc).
    intros i j x y Hi Hj Hij.
    apply lookup_take_Some in Hi as [Hi _], Hj as [Hj _].
    by apply (Hinc i j).
  - intros i lo hi c. by apply histogram_doane_bins.
Qed.

(** C9. The Distribution Binner leaves the dataset of its caller, and
    every other object that existed before the call, as it was: the bin
    column goes to a private copy, which is a new object. *)
Theorem C9_binner_keeps_input l cm h :
  (_me_mae_distr l cm h).2 !! l = h !! l ∧
  take (length h) (_me_mae_distr l cm h).2 = h.
Proof.
  destruct (h !! l) as [df|] eqn:Hl.
  - destruct (me_mae_distr_on_last cm h h l l df Hl Hl) as (r & d' & -> & _).
    cbn. split.
    + rewrite lookup_app_l; [done|]. by eapply lookup_lt_Some.
    + by rewrite take_app_length.
  - unfold _me_mae_distr, copy, read, mbind, M_bind. rewrite Hl. cbn.
    split; [done|]. by rewrite firstn_all.
Qed.
End binner_claims.

Lemma run_read {B} l (h : list DataFrame) df (k : DataFrame → M B) :
  h !! l = Some df → (read l ≫= k) h = k df h.
Proof. intros Hl. by apply bind_run, read_inr. Qed.

Lemma run_getitem {B} l (h : list DataFrame) df key s (k : Series → M B) :
  h !! l = Some df → df !! key = Some s → (getitem l key ≫= k) h = k s h.
Proof. intros Hl Hs. apply bind_run, getitem_inr. by exists df. Qed.

Section calculate.
Context `{!np.DoaneRule} `{!analyzers.RegressionPerformanceAnalyzer}.

(** The steps of a run of [calculate] that returns. *)
Lemma calculate_inr data metrics h r h' :
  calculate data metrics h = (inr r, h') ↔
  ∃ current cur ref a y_true y_pred r2 mse me mae h1 ref_me ref_mae,
    current_data data = Some current ∧ h !! current = Some cur ∧
    match reference_data data with
    | None => ref = cur
    | Some reference => h !! reference = Some ref
    end ∧
    analyzers.calculate ref ((λ _, cur) <$> reference_data data)
      (column_mapping data) = inr a ∧
    cur !! target (column_mapping data) = Some y_true ∧
    cur !! prediction (column_mapping data) = Some y_pred ∧
    sklearn.r2_score y_true y_pred = inr r2 ∧
    sklearn.mean_squared_error y_true y_pred = inr mse ∧
    _me_mae_distr current (column_mapping data) h = (inr (me, mae), h1) ∧
    match reference_data data with
    | None => ref_me = None ∧ ref_mae = None ∧ h' = h1
    | Some reference =>
        ∃ rme rmae,
          _me_mae_distr reference (column_mapping data) h1
          = (inr (rme, rmae), h') ∧
          ref_me = Some rme ∧ ref_mae = Some rmae
    end ∧
    r = assemble a r2 mse me mae ref_me ref_mae.
Proof.
  unfold calculate. split.
  - destruct (current_data data) as [current|]; [|done].
    intros Hrun.
    apply bind_inr in Hrun as (a & h0 & Ha & Hrun).
    assert (∃ cur ref, h !! current = Some cur ∧
              match reference_data data with
              | None => ref = cur
              | Some reference => h !! reference = Some ref
              end ∧
              analyzers.calculate ref ((λ _, cur) <$> reference_data data)
                (column_mapping data) = inr a ∧ h0 = h)
      as (cur & ref & Hcur & Href & Hana & ->).
    { destruct (reference_data data) as [reference|].
      - apply bind_inr in Ha as (ref & ? & (Href & ->)%read_inr & Ha).
        apply bind_inr in Ha as (cur & ? & (Hcur & ->)%read_inr & Ha).
        apply lift_inr in Ha as [Ha ->]. by exists cur, ref.
      - apply bind_inr in Ha as (cur & ? & (Hcur & ->)%read_inr & Ha).
        apply lift_inr in Ha as [Ha ->]. by exists cur, cur. }
    apply bind_inr in Hrun as (yt & ? & (? & Hc & Hyt & ->)%getitem_inr & Hrun).
    rewrite Hcur in Hc. injection Hc as <-.
    apply bind_inr in Hrun as (yp & ? & (? & Hc & Hyp & ->)%getitem_inr & Hrun).
    rewrite Hcur in Hc. injection Hc as <-.
    apply bind_inr in Hrun as (r2 & ? & (Hr2 & ->)%lift_inr & Hrun).
    apply bind_inr in Hrun as (yt' & ? & (? & Hc & Hyt' & ->)%getitem_inr & Hrun).
    rewrite Hcur in Hc. injection Hc as <-.
    apply bind_inr in Hrun as (yp' & ? & (? & Hc & Hyp' & ->)%getitem_inr & Hrun).
    rewrite Hcur in Hc. injection Hc as <-.
    assert (yt' = yt) as -> by congruence.
    assert (yp' = yp) as -> by congruence.
    apply bind_inr in Hrun as (mse & ? & (Hmse & ->)%lift_inr & Hrun).
    apply bind_inr in Hrun as ([me mae] & h1 & Hbin & Hrun).
    apply bind_inr in Hrun as ([ref_me ref_mae] & h2 & Hrbin & Hrun).
    injection Hrun as <- <-.
    exists current, cur, ref, a, yt, yp, r2, mse, me, mae, h1, ref_me, ref_mae.
    do 9 (split; [done|]). split; [|done].
    destruct (reference_data data) as [reference|].
    + apply bind_inr in Hrbin as ([rme rmae] & ? & Hrbin & [= <- <- <-]).
      by exists rme, rmae.
    + by injection Hrbin as <- <- <-.
  - intros (current & cur & ref & a & yt & yp & r2 & mse & me & mae & h1
            & ref_me & ref_mae & -> & Hcur & Href & Hana & Hyt & Hyp & Hr2
            & Hmse & Hbin & Hrbin & ->).
    erewrite bind_run.
    2:{ destruct (reference_data data) as [reference|].
        - rewrite (run_read _ _ _ _ Href), (run_read _ _ _ _ Hcur).
          apply lift_inr. split; [exact Hana|done].
        - subst ref. rewrite (run_read _ _ _ _ Hcur).
          apply lift_inr. split; [exact Hana|done]. }
    rewrite (run_getitem _ _ _ _ _ _ Hcur Hyt).
    rewrite (run_getitem _ _ _ _ _ _ Hcur Hyp).
    rewrite (run_lift _ _ _ _ Hr2).
    rewrite (run_getitem _ _ _ _ _ _ Hcur Hyt).
    rewrite (run_getitem _ _ _ _ _ _ Hcur Hyp).
    rewrite (run_lift _ _ _ _ Hmse).
    rewrite (bind_run _ _ _ _ _ Hbin).
    destruct (reference_data data) as [reference|].
    + destruct Hrbin as (rme & rmae & Hrbin & -> & ->).
      erewrite bind_run; [|by rewrite (bind_run _ _ _ _ _ Hrbin)]. done.
    + destruct Hrbin as (-> & -> & ->). done.
Qed.
End calculate.

Lemma agree_app ls h1 h2 e1 e2 :
  agree ls h1 h2 → agree ls (h1 ++ e1) (h2 ++ e2).
Proof.
  intros Hag l Hl. destruct (Hag l Hl) as [[df Hdf] Heq].
  rewrite Hdf in Heq. symmetry in Heq.
  rewrite (lookup_app_l h1) by (by eapply lookup_lt_Some).
  rewrite (lookup_app_l h2) by (by eapply lookup_lt_Some).
  rewrite Hdf, Heq. eauto.
Qed.

Lemma reads_only_bind {A B} ls (m : M A) (k : A → M B) :
  appends m → reads_only ls m → (∀ a, reads_only ls (k a)) →
  reads_only ls (m ≫= k).
Proof.
  intros Happ Hm Hk h1 h2 Hag. unfold mbind, M_bind.
  specialize (Hm h1 h2 Hag).
  destruct (Happ h1) as [e1 He1], (Happ h2) as [e2 He2].
  destruct (m h1) as [[e|a] h1'], (m h2) as [[e'|a'] h2'];
    simpl in *; try done.
  { by injection Hm as <-. }
  injection Hm as <-. subst. by apply Hk, agree_app.
Qed.

Lemma reads_only_ret {A} ls (a : A) : reads_only ls (mret a).
Proof. by intros h1 h2 _. Qed.

Lemma reads_only_lift {A} ls (r : res A) : reads_only ls (lift r).
Proof. by intros h1 h2 _. Qed.

Lemma reads_only_read ls l : l ∈ ls → reads_only ls (read l).
Proof.
  intros Hl h1 h2 Hag. unfold read. destruct (Hag l Hl) as [_ <-].
  by destruct (h1 !! l).
Qed.

Lemma reads_only_getitem ls l key : l ∈ ls → reads_only ls (getitem l key).
Proof.
  intros Hl. apply reads_only_bind.
  - apply appends_read.
  - by apply reads_only_read.
  - intros df. apply reads_only_lift.
Qed.

Section calculate_heap.
Context `{!np.DoaneRule} `{!analyzers.RegressionPerformanceAnalyzer}.

Lemma reads_only_me_mae_distr ls l cm :
  l ∈ ls → reads_only ls (_me_mae_distr l cm).
Proof.
  intros Hl h1 h2 Hag. apply me_mae_distr_local. by apply Hag.
Qed.

(** [calculate] only adds objects to the heap. *)
Lemma calculate_appends data metrics : appends (calculate data metrics).
Proof.
  unfold calculate.
  destruct (current_data data) as [current|]; [|apply appends_raise].
  repeat first
    [ apply appends_ret | apply appends_lift | apply appends_read
    | apply appends_getitem | apply me_mae_distr_appends
    | apply appends_bind; [|intros ?]
    | match goal with
      | |- appends (match ?o with _ => _ end) => destruct o
      | |- appends (let '(_, _) := ?p in _) => destruct p
      end ].
Qed.

(** Two runs of [calculate] on the same datasets have the same
    outcome, whatever else the two heaps hold. *)
Lemma calculate_same_datasets data metrics :
  reads_only (datasets data) (calculate data metrics).
Proof.
  unfold calculate, datasets.
  destruct (current_data data) as [current|]; [|by intros h1 h2 _].
  destruct (reference_data data) as [reference|]; cbn [omap id].
  all: repeat first
    [ apply reads_only_ret | apply reads_only_lift
    | apply reads_only_read; set_solver
    | apply reads_only_getitem; set_solver
    | apply reads_only_me_mae_distr; set_solver
    | apply reads_only_bind; [| |intros ?]
    | apply appends_ret | apply appends_lift | apply appends_read
    | apply appends_getitem | apply me_mae_distr_appends
    | apply appends_bind; [|intros ?]
    | match goal with
      | |- reads_only _ (let '(_, _) := ?p in _) => destruct p
      | |- appends (let '(_, _) := ?p in _) => destruct p
      end ].
Qed.

(** With a dataset that is no object, [calculate] stops before it
    allocates anything. *)
Lemma calculate_dangling data metrics h l :
  l ∈ datasets data → h !! l = None → (calculate data metrics h).2 = h.
Proof.
  unfold calculate, datasets. intros Hl Hnone.
  destruct (current_data data) as [current|]; [|done].
  unfold mbind at 1. unfold M_bind at 1.
  destruct (reference_data data) as [reference|]; cbn [omap id] in Hl.
  - unfold mbind at 1, M_bind at 1, read at 1.
    destruct (h !! reference) as [ref|] eqn:Href; [|done].
    unfold mbind at 1, M_bind at 1, read at 1.
    destruct (h !! current) as [cur|] eqn:Hcur; [|done].
    apply elem_of_cons in Hl as [->|Hl]; [congruence|].
    apply list_elem_of_singleton in Hl as ->. congruence.
  - unfold mbind at 1, M_bind at 1, read at 1.
    destruct (h !! current) as [cur|] eqn:Hcur; [|done].
    apply list_elem_of_singleton in Hl as ->. congruence.
Qed.

(** C10. [calculate] is deterministic: a second invocation on the same
    input, run after the first one, has the same outcome as the first;
    the same record, with identical scalar metrics and identical
    histogram and binned-MAE entries in the same order, or the same
    exception. *)
Theorem C10_calculate_deterministic data metrics h :
  (calculate data metrics (calculate data metrics h).2).1
  = (calculate data metrics h).1.
Proof.
  destruct (decide (Forall (λ l, is_Some (h !! l)) (datasets data)))
    as [Hvalid|Hdangling].
  - destruct (calculate_appends data metrics h) as [ext ->].
    symmetry. apply calculate_same_datasets. intros l Hl.
    rewrite Forall_forall in Hvalid. specialize (Hvalid l Hl).
    split; [done|]. destruct Hvalid as [df Hdf].
    by rewrite lookup_app_l by (by eapply lookup_lt_Some).
  - apply not_Forall_Exists in Hdangling; [|apply _].
    apply Exists_exists in Hdangling as (l & Hl & Hnone).
    rewrite (calculate_dangling data metrics h l); [done..|].
    by apply eq_None_not_Some.
Qed.
End calculate_heap.

Section calculate_claims.
Context `{!np.DoaneRule} `{!analyzers.RegressionPerformanceAnalyzer}.

(** C2. The scalar metric fields of the record are the reference
    metrics of the analyzer, and the analyzer is run with the reference
    dataset in its reference slot when one is supplied, and with the
    current dataset there otherwise: with a reference dataset the fields
    describe the reference dataset, not the current one. *)
Theorem C2_scalars_from_reference_metrics data metrics h r h' :
  calculate data metrics h = (inr r, h') →
  ∃ current cur ref a,
    current_data data = Some current ∧ h !! current = Some cur ∧
    match reference_data data with
    | None => ref = cur
    | Some reference => h !! reference = Some ref
    end ∧
    analyzers.calculate ref ((λ _, cur) <$> reference_data data)
      (column_mapping data) = inr a ∧
    let m := analyzers.reference_metrics a in
    mean_error r = analyzers.mean_error m ∧
    mean_abs_error r = analyzers.mean_abs_error m ∧
    mean_abs_perc_error r = analyzers.mean_abs_perc_error m ∧
    abs_error_max r = analyzers.abs_error_max m ∧
    error_std r = analyzers.error_std m ∧
    abs_error_std r = analyzers.abs_error_std m ∧
    abs_perc_error_std r = analyzers.abs_perc_error_std m ∧
    error_normality r = analyzers.error_normality m ∧
    underperformance r = analyzers.underperformance m.
Proof.
  intros (current & cur & ref & a & yt & yp & r2 & mse & me & mae & h1
          & ref_me & ref_mae & Hc & Hcur & Href & Hana & _ & _ & _ & _
          & _ & _ & ->)%calculate_inr.
  exists current, cur, ref, a. do 4 (split; [done|]). cbn.
  repeat split.
Qed.

(** C5. Without a current dataset [calculate] raises the error
    "current dataset should be present", whatever the reference dataset,
    the column mapping, the analyzer and the heap are, and the heap is
    as before: neither the analyzer nor the binner has run. *)
Theorem C5_current_dataset_required reference cm metrics h :
  calculate {| reference_data := reference; current_data := None;
               column_mapping := cm |} metrics h
  = (inl (ValueError "current dataset should be present"), h).
Proof. reflexivity. Qed.

(** C1. In the record that [calculate] returns, the fields derived from
    the reference dataset ([ref_me_distr], [ref_mae_distr], [error_bias])
    are present exactly when a reference dataset was supplied. *)
Theorem C1_reference_fields_presence
    `{!analyzers.ErrorBiasContract} data metrics h r h' :
  calculate data metrics h = (inr r, h') →
  (is_Some (ref_me_distr r) ↔ is_Some (reference_data data)) ∧
  (is_Some (ref_mae_distr r) ↔ is_Some (reference_data data)) ∧
  (is_Some (error_bias r) ↔ is_Some (reference_data data)).
Proof.
  intros (current & cur & ref & a & yt & yp & r2 & mse & me & mae & h1
          & ref_me & ref_mae & Hc & Hcur & Href & Hana & _ & _ & _ & _
          & _ & Hrbin & ->)%calculate_inr.
  cbn. apply analyzers.error_bias_present in Hana.
  rewrite Hana, fmap_is_Some.
  destruct (reference_data data) as [reference|].
  - destruct Hrbin as (rme & rmae & _ & -> & ->). done.
  - destruct Hrbin as (-> & -> & _).
    split; [|split; [|done]]; split; by intros [? ?].
Qed.

(** C8. For the current dataset with the (target, prediction) rows
    (1,1), (2,1), (3,5), (4,4), (5,2) and no reference dataset,
    [calculate] returns whenever the analyzer does, and the field [rmsa]
    of the record is the mean squared error of the current dataset,
    (0+1+4+0+9)/5 = 2.8. *)
Theorem C8_example_mean_squared_error metrics h l a :
  h !! l = Some example_frame →
  analyzers.calculate example_frame None example_mapping = inr a →
  ∃ r h',
    calculate {| reference_data := None; current_data := Some l;
                 column_mapping := example_mapping |} metrics h
    = (inr r, h') ∧
    (rmsa r == 2.8)%Q.
Proof.
  intros Hl Hana.
  destruct (histogram_doane_returns
              [Some 0; Some 1; Some (-2); Some 0; Some 3]%Q
              [0; 1; -2; 0; 3]%Q eq_refl)
    as (edges & counts & Hedges & Hhist).
  eexists _, _. split.
  - apply calculate_inr.
    eexists l, example_frame, example_frame, a, _, _, _, _, _, _, _, None, None.
    cbn [current_data reference_data column_mapping fmap option_fmap option_map].
    split; [done|]. split; [done|]. split; [done|]. split; [done|].
    split; [reflexivity|]. split; [reflexivity|].
    split; [vm_compute; reflexivity|]. split; [vm_compute; reflexivity|].
    split; [|done].
    apply me_mae_distr_inr.
    eexists example_frame, _, _, _, _, _, edges, counts, _.
    split; [done|]. split; [reflexivity|].
    split.
    + reflexivity.
    + reflexivity.
    + done.
    + done.
    + vm_compute. reflexivity.
    + vm_compute. reflexivity.
    + exact Hedges.
    + exact Hhist.
    + vm_compute. reflexivity.
    + vm_compute. reflexivity.
    + reflexivity.
  - vm_compute. reflexivity.
Qed.
End calculate_claims.

(** ** Runs on the examples *)

Lemma sample_analyzer_error_bias : @analyzers.ErrorBiasContract sample_analyzer.
Proof.
  intros reference_data current_data column_mapping r Hr.
  unfold analyzers.calculate, sample_analyzer in Hr.
  apply res_bind_inr in Hr as (y_true & _ & Hr).
  apply res_bind_inr in Hr as (y_pred & _ & Hr).
  apply res_bind_inr in Hr as ([t p] & _ & [= <-]).
  cbn. apply fmap_is_Some.
Qed.

(** The binner on the example dataset: four histogram bins, and five
    target bins with one row each. *)
Example example_binner_run :
  (@_me_mae_distr sturges 0 example_mapping [example_frame]).1
  = inr ([(-8 # 4, 1%Z); (-3 # 4, 2%Z); (2 # 4, 1%Z); (7 # 4, 1%Z)]%Q,
         [(mkInterval (4980 # 5000) (9 # 5), 0%Q, 1%Z);
          (mkInterval (9 # 5) (13 # 5), 1%Q, 1%Z);
          (mkInterval (13 # 5) (17 # 5), 2%Q, 1%Z);
          (mkInterval (17 # 5) (21 # 5), 0%Q, 1%Z);
          (mkInterval (21 # 5) 5, 3%Q, 1%Z)]).
Proof. vm_compute. reflexivity. Qed.

(** A target with three distinct values is cut into three bins. *)
Example three_distinct_targets_three_bins :
  (@_me_mae_distr sturges 0 example_mapping [example_reference]).1
  = inr ([(-3 # 3, 1%Z); (-1 # 3, 1%Z); (1 # 3, 1%Z)]%Q,
         [(mkInterval (5988 # 3000) (10 # 3), 1%Q, 1%Z);
          (mkInterval (10 # 3) (14 # 3), 1%Q, 1%Z);
          (mkInterval (14 # 3) 6, 0%Q, 1%Z)]).
Proof. vm_compute. reflexivity. Qed.

(** A target with one distinct value gets one bin that holds every
    row. *)
Example one_distinct_target_one_bin :
  (@_me_mae_distr sturges 0 example_mapping
     [<["target" := Numeric [Some 7; Some 7]%Q]>
        (<["prediction" := Numeric [Some 1; Some 9]%Q]> ∅)]).1
  = inr ([(-2, 2%Z)]%Q, [(mkInterval 6.993000000 7.007, 8 # 2, 2%Z)]%Q).
Proof. vm_compute. reflexivity. Qed.

(** [calculate] on the example input returns; some fields of its
    record. *)
Example example_calculate_run :
  ∃ r h',
    @calculate sturges sample_analyzer example_input ∅ example_heap
    = (inr r, h') ∧
    length h' = 4 ∧ rmsa r = (14 # 5)%Q ∧
    mean_error r = Some (0 # 3)%Q ∧
    error_bias r = Some ∅.
Proof. eexists _, _. split; [vm_compute; reflexivity|]. by vm_compute. Qed.

Lemma C1_reference_fields_presence_witness :
  ∃ r h',
    @calculate sturges sample_analyzer example_input ∅ example_heap
    = (inr r, h') ∧
    (is_Some (ref_me_distr r) ↔ is_Some (reference_data example_input)) ∧
    (is_Some (ref_mae_distr r) ↔ is_Some (reference_data example_input)) ∧
    (is_Some (error_bias r) ↔ is_Some (reference_data example_input)).
Proof.
  eexists _, _. split; [vm_compute; reflexivity|].
  eapply (@C1_reference_fields_presence sturges sample_analyzer
           sample_analyzer_error_bias example_input ∅ example_heap).
  vm_compute. reflexivity.
Defined.

Lemma C2_scalars_from_reference_metrics_witness :
  ∃ r h',
    @calculate sturges sample_analyzer example_input ∅ example_heap
    = (inr r, h') ∧
    ∃ a,
      @analyzers.calculate sample_analyzer example_reference
        (Some example_frame) example_mapping = inr a ∧
      mean_error r = analyzers.mean_error (analyzers.reference_metrics a) ∧
      mean_abs_error r
      = analyzers.mean_abs_error (analyzers.reference_metrics a).
Proof.
  eexists _, _. split; [vm_compute; reflexivity|].
  destruct (@C2_scalars_from_reference_metrics sturges sample_analyzer
              example_input ∅ example_heap _ _ eq_refl)
    as (current & cur & ref & a & Hc & Hcur & Href & Ha & Hm).
  injection Hc as <-. injection Hcur as <-. injection Href as <-.
  exists a. split; [exact Ha|]. split; apply Hm.
Defined.


Lemma C7_signed_error_histogram_witness :
  ∃ hist bins h',
    @_me_mae_distr sturges 0 example_mapping [example_frame]
    = (inr (hist, bins), h') ∧
    ∃ df tgt pred data edges counts,
      [example_frame] !! 0 = Some df ∧
      df !! target example_mapping = Some tgt ∧
      df !! prediction example_mapping = Some pred ∧
      pd.sub tgt pred = inr data ∧
      @np.histogram_bin_edges sturges data = inr edges ∧
      np.histogram data edges = inr (counts, edges) ∧
      length edges = S (length counts) ∧
      hist = zip (take (length counts) edges) counts ∧
      increasing (hist.*1) ∧
      ∀ i lo hi c,
        edges !! i = Some lo → edges !! S i = Some hi →
        counts !! i = Some c →
        c = bin_count data lo hi (bool_decide (S (S i) = length edges)).
Proof.
  eexists _, _, _. split; [vm_compute; reflexivity|].
  eapply (@C7_signed_error_histogram sturges 0 example_mapping [example_frame]).
  vm_compute. reflexivity.
Defined.

Lemma C8_example_mean_squared_error_witness :
  ∃ a,
    [example_frame] !! 0 = Some example_frame ∧
    @analyzers.calculate sample_analyzer example_frame None example_mapping
    = inr a ∧
    ∃ r h',
      @calculate sturges sample_analyzer
        {| reference_data := None; current_data := Some 0;
           column_mapping := example_mapping |} ∅ [example_frame]
      = (inr r, h') ∧
      (rmsa r == 2.8)%Q.
Proof.
  eexists. split; [reflexivity|]. split; [vm_compute; reflexivity|].
  eapply (@C8_example_mean_squared_error sturges sample_analyzer ∅
           [example_frame] 0); [reflexivity|].
  vm_compute. reflexivity.
Defined.

(** * Further properties *)

(** ** How the binner fails *)

Lemma bind_raise {A B} (m : M A) (k : A → M B) h e h1 :
  m h = (inl e, h1) → (m ≫= k) h = (inl e, h1).
Proof. unfold mbind, M_bind. by intros ->. Qed.

Lemma run_lift_raise {A B} (r : res A) e (k : A → M B) h :
  r = inl e → (lift r ≫= k) h = (inl e, h).
Proof. intros ->. done. Qed.

Lemma run_getitem_last_missing {B} (h : list DataFrame) d key
    (k : Series → M B) :
  d !! key = None →
  (getitem (length h) key ≫= k) (h ++ [d]) = (inl (KeyError key), h ++ [d]).
Proof.
  intros Hkey. apply bind_raise. unfold getitem.
  rewrite run_read_last. unfold lift, pd.getitem. by rewrite Hkey.
Qed.

(** A column with a number in it can be cut into as many bins as it has
    distinct values, at most ten. *)
Lemma cut_returns values q qs :
  omap id values = q :: qs →
  ∃ cats codes,
    pd.cut (Numeric values) (min (pd.nunique (Numeric values)) 10)
    = inr (Categorical cats codes).
Proof.
  intros Hq. unfold pd.cut, pd.nunique. rewrite Hq. cbn [pd.unique length].
  rewrite bool_decide_eq_false_2 by lia.
  destruct values as [|v values]; [done|]. rewrite Hq. eexists _, _. reflexivity.
Qed.

Section binner_failures.
Context `{!np.DoaneRule}.

(** X1. When the dataset has no target column, the binner raises
    [KeyError] for the name of that column; it has made its private copy
    and nothing else. *)
Theorem binner_missing_target_column l cm h df :
  h !! l = Some df → df !! target cm = None →
  _me_mae_distr l cm h = (inl (KeyError (target cm)), h ++ [df]).
Proof.
  intros Hl Hkey. unfold _me_mae_distr.
  rewrite (run_copy _ _ _ _ Hl).
  by rewrite (run_getitem_last_missing _ _ _ _ Hkey).
Qed.

(** X3. When the target column holds no number (no rows, or missing
    values only), the binner asks [pd.cut] for [min(0, 10) = 0] bins and
    raises the [ValueError] of [pd.cut]. *)
Theorem binner_no_target_value l cm h df tgt :
  h !! l = Some df → df !! target cm = Some (Numeric tgt) →
  omap id tgt = [] →
  _me_mae_distr l cm h
  = (inl (ValueError "`bins` should be a positive integer."), h ++ [df]).
Proof.
  intros Hl Htgt Hnone. unfold _me_mae_distr.
  rewrite (run_copy _ _ _ _ Hl).
  rewrite (run_getitem_last _ _ _ _ _ Htgt). cbn zeta.
  rewrite (run_getitem_last _ _ _ _ _ Htgt).
  apply run_lift_raise. unfold pd.cut, pd.nunique. by rewrite Hnone.
Qed.

End binner_failures.

Lemma sub_numeric tgt pred :
  length tgt = length pred →
  pd.sub (Numeric tgt) (Numeric pred) = inr (zip_with fsub tgt pred).
Proof. intros Hlen. unfold pd.sub. by rewrite bool_decide_eq_true_2. Qed.




Section binner_missing.
Context `{!np.DoaneRule}.

End binner_missing.

(** *** Rows of a group *)

Lemma compress_fmap {A B} (f : A → B) mask (l : list A) :
  pd.compress mask (f <$> l) = f <$> pd.compress mask l.
Proof.
  unfold pd.compress. revert l.
  induction mask as [|b mask IH]; intros [|x l]; try done.
  cbn. destruct b; cbn; by rewrite <- IH.
Qed.

Lemma length_compress_same {A B} mask (l1 : list A) (l2 : list B) :
  length l1 = length l2 →
  length (pd.compress mask l1) = length (pd.compress mask l2).
Proof.
  unfold pd.compress. revert l1 l2.
  induction mask as [|b mask IH]; intros [|x l1] [|y l2] Hlen; try done.
  injection Hlen as Hlen. cbn. destruct b; cbn; by rewrite (IH l1 l2).
Qed.

Lemma length_compress_group {A} codes i (l : list A) :
  length codes = length l →
  Z.of_nat (length (pd.compress (pd.group_mask codes i) l))
  = category_count codes i.
Proof.
  unfold category_count, pd.compress, pd.group_mask. intros Hlen. f_equal.
  revert l Hlen. induction codes as [|c codes IH]; intros [|x l] Hlen; try done.
  injection Hlen as Hlen. rewrite filter_cons. cbn -[filter].
  destruct (decide (c = Some i)) as [Hc|Hc].
  - rewrite bool_decide_eq_true_2 by done. cbn -[filter]. by rewrite (IH l).
  - rewrite bool_decide_eq_false_2 by done. cbn -[filter]. by rewrite (IH l).
Qed.

Lemma finite_values_fmap_Some vs : np.finite_values (Some <$> vs) = Some vs.
Proof.
  unfold np.finite_values. induction vs as [|v vs IH]; [done|].
  cbn. cbn in IH. by rewrite IH.
Qed.

(** The mean absolute error of a group of rows without missing values:
    an error for the empty group. *)
Lemma group_mae_eval (df : DataFrame) cm ts ps mask :
  df !! target cm = Some (Numeric (Some <$> ts)) →
  df !! prediction cm = Some (Numeric (Some <$> ps)) →
  length ts = length ps →
  group_mae cm (pd.take_rows mask <$> df)
  = match pd.compress mask ts with
    | [] => inl no_sample
    | _ :: _ =>
        inr (np.mean (Qabs <$> sklearn.errors (pd.compress mask ts)
                                             (pd.compress mask ps)))
    end.
Proof.
  intros Htgt Hpred Hlen. unfold pd.getitem.
  rewrite !lookup_fmap, Htgt, Hpred. cbn.
  unfold sklearn.mean_absolute_error, sklearn._check_reg_targets.
  rewrite !compress_fmap, !length_fmap.
  rewrite bool_decide_eq_true_2 by (by apply length_compress_same).
  rewrite !finite_values_fmap_Some.
  by destruct (pd.compress mask ts).
Qed.

(** *** Running a function that may fail over a list *)


Lemma mapM_res_raise {A B} (f : A → res B) e l :
  (∀ a, a ∈ l → f a = inl e ∨ ∃ b, f a = inr b) →
  (∃ a, a ∈ l ∧ f a = inl e) →
  mapM f l = inl e.
Proof.
  induction l as [|x l IH]; intros Hall (a & Ha & Hfa).
  - by apply elem_of_nil in Ha.
  - cbn. destruct (Hall x) as [Hx|[b Hx]]; [by left| |]; rewrite Hx; [done|].
    cbn. rewrite IH; [done| |].
    + intros a' Ha'. apply Hall. by right.
    + apply elem_of_cons in Ha as [->|Ha]; [congruence|]. by exists a.
Qed.

(** *** The mean absolute error of every bin *)

Section groups.
Context (df : DataFrame) (cm : ColumnMapping) (ts ps : list Q)
  (cats : list Interval) (codes : list (option nat)).
Hypothesis Hkey : df !! "target_binned" = Some (Categorical cats codes).
Hypothesis Htgt : df !! target cm = Some (Numeric (Some <$> ts)).
Hypothesis Hpred : df !! prediction cm = Some (Numeric (Some <$> ps)).
Hypothesis Hlen : length ts = length ps.
Hypothesis Hcodes : length codes = length ts.

Lemma group_mae_at i (c : Interval) :
  (v ← group_mae cm (pd.take_rows (pd.group_mask codes i) <$> df);
   mret ((i, c), v))
  = if decide (category_count codes i = 0%Z)
    then inl no_sample
    else inr ((i, c), bin_mae codes ts ps i).
Proof.
  pose proof (group_mae_eval df cm ts ps (pd.group_mask codes i)
                Htgt Hpred Hlen) as Heval.
  cbv beta in Heval |- *. rewrite Heval. clear Heval.
  pose proof (length_compress_group codes i ts Hcodes) as Hcount.
  destruct (pd.compress (pd.group_mask codes i) ts) as [|t ts'] eqn:Hts.
  - cbn in Hcount. rewrite decide_True by done. done.
  - cbn [length] in Hcount. rewrite decide_False by lia.
    cbn. unfold bin_mae. by rewrite Hts.
Qed.


Lemma groupby_mae_raises i :
  i < length cats → category_count codes i = 0%Z →
  pd.groupby_apply df "target_binned" (group_mae cm) = inl no_sample.
Proof.
  intros Hi Hzero. unfold pd.groupby_apply, pd.getitem. rewrite Hkey.
  cbn [mbind res_bind mret res_ret].
  apply mapM_res_raise.
  - intros [j c] _. cbv beta iota. rewrite group_mae_at. case_decide; eauto.
  - destruct (lookup_lt_is_Some_2 cats i Hi) as [c Hc].
    exists (i, c). split.
    + apply list_elem_of_lookup. exists i. by rewrite list_lookup_imap, Hc.
    + cbv beta iota. rewrite group_mae_at. by rewrite decide_True.
Qed.
End groups.





Lemma zip_with_fsub_Some ts ps :
  zip_with fsub (Some <$> ts) (Some <$> ps) = Some <$> zip_with Qminus ts ps.
Proof.
  revert ps. induction ts as [|t ts IH]; intros [|p ps]; try done.
  cbn. by rewrite IH.
Qed.

Section binner_runs.
Context `{!np.DoaneRule}.

(** A frame without missing values reaches the grouping step: the cut,
    the subtraction and the histogram succeed. *)
Lemma binner_reaches_groups df cm ts ps :
  complete_frame df cm ts ps →
  ∃ cats codes edges counts,
    pd.cut (Numeric (Some <$> ts))
           (min (pd.nunique (Numeric (Some <$> ts))) 10)
    = inr (Categorical cats codes) ∧
    pd.sub (Numeric (Some <$> ts)) (Numeric (Some <$> ps))
    = inr (Some <$> zip_with Qminus ts ps) ∧
    np.histogram_bin_edges (Some <$> zip_with Qminus ts ps) = inr edges ∧
    np.histogram (Some <$> zip_with Qminus ts ps) edges = inr (counts, edges).
Proof.
  intros [Htgt Hpred Hnt Hnp Hlen Hrows].
  destruct ts as [|t ts]; [done|].
  destruct (cut_returns (Some <$> t :: ts) t ts) as (cats & codes & Hcut).
  { by rewrite omap_id_Some. }
  destruct (histogram_doane_returns (Some <$> zip_with Qminus (t :: ts) ps)
              (zip_with Qminus (t :: ts) ps))
    as (edges & counts & Hedges & Hhist).
  { cbn. apply finite_values_fmap_Some. }
  exists cats, codes, edges, counts. split; [done|]. split; [|done].
  rewrite sub_numeric by (by rewrite !length_fmap).
  by rewrite zip_with_fsub_Some.
Qed.


(** On a frame without missing values one of whose target bins holds no
    row, the binner raises when it asks for the mean absolute error of
    that bin. *)
Lemma me_mae_distr_empty_group l cm h df ts ps cats codes i :
  h !! l = Some df →
  complete_frame df cm ts ps →
  pd.cut (Numeric (Some <$> ts)) (min (pd.nunique (Numeric (Some <$> ts))) 10)
  = inr (Categorical cats codes) →
  i < length cats → category_count codes i = 0%Z →
  (_me_mae_distr l cm h).1 = inl no_sample.
Proof.
  intros Hl Hdf Hcut Hi Hzero.
  destruct (binner_reaches_groups df cm ts ps Hdf)
    as (cats' & codes' & edges & counts & Hcut' & Hsub & Hedges & Hhist).
  rewrite Hcut in Hcut'. injection Hcut' as <- <-.
  destruct Hdf as [Htgt Hpred Hnt Hnp Hlen Hrows].
  destruct (cut_categories _ _ _ _ Hcut) as (Hcats & Hinc & Hclen & _).
  rewrite length_fmap in Hclen.
  unfold _me_mae_distr.
  rewrite (run_copy _ _ _ _ Hl).
  rewrite (run_getitem_last _ _ _ _ _ Htgt). cbn zeta.
  rewrite (run_getitem_last _ _ _ _ _ Htgt).
  rewrite (run_lift _ _ _ _ Hcut).
  rewrite run_setitem_last.
  rewrite (run_getitem_last _ _ _ (Numeric (Some <$> ts)))
    by (by rewrite lookup_insert_ne).
  rewrite (run_getitem_last _ _ _ (Numeric (Some <$> ps)))
    by (by rewrite lookup_insert_ne).
  rewrite (run_lift _ _ _ _ Hsub).
  rewrite (run_lift _ _ _ _ Hedges).
  rewrite (run_lift _ _ _ _ Hhist).
  rewrite run_read_last.
  erewrite run_lift_raise; [done|].
  apply (groupby_mae_raises _ cm ts ps cats codes) with (i := i); try done.
  - apply lookup_insert_eq.
  - by rewrite lookup_insert_ne.
  - by rewrite lookup_insert_ne.
Qed.


(** C6. The code breaks the claim on a dataset with an empty target
    bin.  The targets 1, 2 and 10 of [frame_with_empty_bin] are cut into
    three bins that hold two rows, no row and one row, so the claim asks
    for the two entries of the first and the last bin.  The binner
    returns no entries: the mean absolute error is asked for the rows of
    the middle bin as well, scikit-learn rejects the empty group, and
    the run ends with [ValueError]. *)
Theorem C6_empty_bin_raises :
  ∃ tgt cats codes,
    frame_with_empty_bin !! target example_mapping = Some tgt ∧
    pd.cut tgt (min (pd.nunique tgt) 10) = inr (Categorical cats codes) ∧
    category_count codes <$> seq 0 (length cats) = [2; 0; 1]%Z ∧
    (_me_mae_distr 0 example_mapping [frame_with_empty_bin]).1
    = inl no_sample.
Proof.
  eexists _, _, _. split; [reflexivity|].
  split; [vm_compute; reflexivity|]. split; [by vm_compute|].
  apply (me_mae_distr_empty_group 0 example_mapping [frame_with_empty_bin]
           frame_with_empty_bin [1; 2; 10]%Q [1; 1; 5]%Q
           (pd.from_breaks (pd.cut_edges 1 10 3))
           [Some 0; Some 0; Some 2] 1).
  - reflexivity.
  - by split.
  - vm_compute. reflexivity.
  - vm_compute. lia.
  - by vm_compute.
Qed.

End binner_runs.

(** *** A single bin *)


(** *** Degenerate samples *)

Lemma sum_const l c :
  (∀ x, x ∈ l → (x == c)%Q) →
  (np.sum l == inject_Z (Z.of_nat (length l)) * c)%Q.
Proof.
  induction l as [|x l IH]; intros Hall.
  - cbn. ring.
  - cbn [np.sum foldr length]. fold (np.sum l).
    rewrite IH by (intros y Hy; apply Hall; by right).
    rewrite (Hall x) by left.
    rewrite Nat2Z.inj_succ, <- Z.add_1_r, inject_Z_plus. ring.
Qed.

Lemma mean_const l c :
  l ≠ [] → (∀ x, x ∈ l → (x == c)%Q) → (np.mean l == c)%Q.
Proof.
  intros Hne Hall. unfold np.mean. rewrite (sum_const l c Hall).
  destruct l as [|x l]; [done|]. field. apply inject_Z_S_nonzero.
Qed.

(** A sample whose values are all equal has no spread. *)
Lemma var_const l c :
  l ≠ [] → (∀ x, x ∈ l → (x == c)%Q) → (np.var l == 0)%Q.
Proof.
  intros Hne Hall. unfold np.var. apply mean_const.
  - by destruct l.
  - intros y Hy. change (map ?f ?l) with (f <$> l) in Hy.
    apply list_elem_of_fmap in Hy as (x & -> & Hx).
    rewrite (mean_const l c Hne Hall), (Hall x Hx). ring.
Qed.

(** Doane's rule is not consulted for a sample of at most two values or
    of equal values: the histogram has one bin. *)
Lemma n_equal_bins_degenerate `{!np.DoaneRule} a c :
  length a ≤ 2 ∨ (∀ x, x ∈ a → (x == c)%Q) → np.n_equal_bins a = 1.
Proof.
  intros Hdeg. unfold np.n_equal_bins. destruct a as [|x a]; [done|].
  destruct Hdeg as [Hlen|Hconst].
  - by rewrite bool_decide_eq_false_2 by lia.
  - assert (Qlt_bool 0 (np.var (x :: a)) = false) as ->.
    { apply Qlt_bool_false. by rewrite (var_const (x :: a) c). }
    by rewrite andb_false_r.
Qed.

Section binner_more.
Context `{!np.DoaneRule}.


(** X10. When the dataset has at most two rows, or all its errors are
    equal, and the binner returns, the histogram of the errors has exactly
    one entry, which counts every row: Doane's rule is not consulted. *)
Theorem binner_one_histogram_bin l cm h hist bins h' d ts ps e0 :
  _me_mae_distr l cm h = (inr (hist, bins), h') →
  h !! l = Some d → complete_frame d cm ts ps →
  length ts ≤ 2 ∨ (∀ e, e ∈ zip_with Qminus ts ps → (e == e0)%Q) →
  ∃ e, hist = [(e, Z.of_nat (length ts))].
Proof.
  intros Hrun Hl' Hdf Hdeg. inv_binner Hrun.
  rewrite Hl in Hl'. injection Hl' as <-.
  destruct Hdf as [Htgt Hpred _ _ Hlen Hrows].
  rewrite Htarget in Htgt. injection Htgt as ->.
  rewrite Hprediction in Hpred. injection Hpred as ->.
  rewrite sub_numeric, zip_with_fsub_Some in Hsub
    by (by rewrite !length_fmap).
  injection Hsub as <-.
  assert (Some <$> zip_with Qminus ts ps ≠ []) as Hdata.
  { destruct ts, ps; done. }
  destruct (histogram_doane_total _ _ _ _ Hdata Hedges Hhist)
    as (_ & Helen & _ & Hsum).
  destruct (histogram_bin_edges_inr _ _ Hdata Hedges)
    as (vs & e & es & _ & last_edge & Hvs & _ & -> & _ & Hn & _).
  rewrite finite_values_fmap_Some in Hvs. injection Hvs as <-.
  rewrite (n_equal_bins_degenerate _ e0) in Hn.
  2:{ destruct Hdeg as [Hsmall|Hconst]; [left|by right].
      rewrite length_zip_with. lia. }
  destruct es; [|done].
  destruct counts as [|c [|? ?]]; try done.
  exists e. rewrite Hzip. cbn in Hsum |- *.
  rewrite length_fmap, length_zip_with in Hsum. do 2 f_equal. lia.
Qed.
End binner_more.

Section calculate_more.
Context `{!np.DoaneRule} `{!analyzers.RegressionPerformanceAnalyzer}.

(** The analyzer step of [calculate]. *)
Lemma run_analyzer {B} data h current cur oref
    (k : analyzers.RegressionPerformanceAnalyzerResults → M B) :
  h !! current = Some cur → reference_frame data h oref →
  (match reference_data data with
   | None =>
       cur ← read current;
       lift (analyzers.calculate cur None (column_mapping data))
   | Some reference =>
       ref ← read reference;
       cur ← read current;
       lift (analyzers.calculate ref (Some cur) (column_mapping data))
   end ≫= k) h
  = (lift (analyzers.calculate (default cur oref) ((λ _, cur) <$> oref)
             (column_mapping data)) ≫= k) h.
Proof.
  intros Hcur Href. unfold reference_frame in Href.
  destruct (reference_data data) as [reference|].
  - destruct Href as (ref & Href & ->).
    unfold mbind, M_bind, read, lift. by rewrite Href, Hcur.
  - subst oref. unfold mbind, M_bind, read, lift. by rewrite Hcur.
Qed.

(** X11. When the analyzer raises, [calculate] raises the same
    exception and the heap is as before: the failure is not masked and
    the binner has not run. *)
Theorem calculate_propagates_analyzer_error data metrics h current cur oref e :
  current_data data = Some current → h !! current = Some cur →
  reference_frame data h oref →
  analyzers.calculate (default cur oref) ((λ _, cur) <$> oref)
    (column_mapping data) = inl e →
  calculate data metrics h = (inl e, h).
Proof.
  intros Hc Hcur Href Hana. unfold calculate. rewrite Hc.
  rewrite (run_analyzer _ _ _ _ _ _ Hcur Href).
  by apply run_lift_raise.
Qed.

(** X12. When the analyzer returns but the current dataset has no
    target column, [calculate] raises [KeyError] for the name of that
    column, and the heap is as before. *)
Theorem calculate_missing_target_column data metrics h current cur oref a :
  current_data data = Some current → h !! current = Some cur →
  reference_frame data h oref →
  analyzers.calculate (default cur oref) ((λ _, cur) <$> oref)
    (column_mapping data) = inr a →
  cur !! target (column_mapping data) = None →
  calculate data metrics h
  = (inl (KeyError (target (column_mapping data))), h).
Proof.
  intros Hc Hcur Href Hana Hkey. unfold calculate. rewrite Hc.
  rewrite (run_analyzer _ _ _ _ _ _ Hcur Href).
  rewrite (run_lift _ _ _ _ Hana).
  apply bind_raise. unfold getitem.
  rewrite (run_read _ _ _ _ Hcur). unfold lift, pd.getitem. by rewrite Hkey.
Qed.
End calculate_more.

Section calculate_runs.
Context `{!np.DoaneRule} `{!analyzers.RegressionPerformanceAnalyzer}.

(** X15. The distributions of the record are the output of the binner on
    the current dataset alone, and the reference distributions are its
    output on the reference dataset alone: the first run of the binner
    has no influence on the second. *)
Theorem calculate_distributions data metrics h r h' :
  calculate data metrics h = (inr r, h') →
  ∃ current cur oref,
    current_data data = Some current ∧ h !! current = Some cur ∧
    reference_frame data h oref ∧
    (_me_mae_distr 0 (column_mapping data) [cur]).1
    = inr (me_distr r, mae_distr r) ∧
    match oref with
    | None => ref_me_distr r = None ∧ ref_mae_distr r = None
    | Some ref =>
        ∃ rme rmae,
          ref_me_distr r = Some rme ∧ ref_mae_distr r = Some rmae ∧
          (_me_mae_distr 0 (column_mapping data) [ref]).1 = inr (rme, rmae)
    end.
Proof.
  intros (current & cur & ref & a & yt & yp & r2 & mse & me & mae & h1
          & ref_me & ref_mae & Hc & Hcur & Href & _ & _ & _ & _ & _ & Hbin
          & Hrbin & ->)%calculate_inr.
  cbn [me_distr mae_distr ref_me_distr ref_mae_distr assemble].
  assert ((_me_mae_distr 0 (column_mapping data) [cur]).1 = inr (me, mae))
    as Hme.
  { rewrite <- (me_mae_distr_local _ h [cur] current 0) by done.
    by rewrite Hbin. }
  unfold reference_frame.
  destruct (reference_data data) as [reference|].
  - exists current, cur, (Some ref). do 2 (split; [done|]).
    split; [by exists ref|]. split; [done|].
    destruct Hrbin as (rme & rmae & Hrbin & -> & ->).
    exists rme, rmae. do 2 (split; [done|]).
    destruct (me_mae_distr_appends current (column_mapping data) h)
      as [ext Hext].
    rewrite Hbin in Hext. cbn in Hext. subst h1.
    rewrite <- (me_mae_distr_local _ (h ++ ext) [ref] reference 0).
    + by rewrite Hrbin.
    + rewrite lookup_app_l by (by eapply lookup_lt_Some). done.
  - exists current, cur, None. do 3 (split; [done|]). split; [done|].
    by destruct Hrbin as (-> & -> & _).
Qed.
End calculate_runs.

(** ** Further runs on examples *)

Lemma binner_missing_target_column_witness :
  [frame_without_target] !! 0 = Some frame_without_target ∧
  frame_without_target !! target example_mapping = None ∧
  @_me_mae_distr sturges 0 example_mapping [frame_without_target]
  = (inl (KeyError "target"), [frame_without_target; frame_without_target]).
Proof.
  split; [reflexivity|]. split; [reflexivity|].
  apply (@binner_missing_target_column sturges 0 example_mapping
           [frame_without_target] frame_without_target); reflexivity.
Defined.


Lemma binner_no_target_value_witness :
  [frame_without_rows] !! 0 = Some frame_without_rows ∧
  frame_without_rows !! target example_mapping = Some (Numeric []) ∧
  omap id ([] : list (option Q)) = [] ∧
  @_me_mae_distr sturges 0 example_mapping [frame_without_rows]
  = (inl (ValueError "`bins` should be a positive integer."),
     [frame_without_rows; frame_without_rows]).
Proof.
  do 3 (split; [reflexivity|]).
  apply (@binner_no_target_value sturges 0 example_mapping
           [frame_without_rows] frame_without_rows []); reflexivity.
Defined.




Lemma binner_one_histogram_bin_witness :
  ∃ hist bins h',
    @_me_mae_distr sturges 0 example_mapping [frame_single_target]
    = (inr (hist, bins), h') ∧
    [frame_single_target] !! 0 = Some frame_single_target ∧
    complete_frame frame_single_target example_mapping [7; 7]%Q [1; 9]%Q ∧
    length [7; 7]%Q ≤ 2 ∧
    ∃ e, hist = [(e, Z.of_nat (length [7; 7]%Q))].
Proof.
  eexists _, _, _. split; [vm_compute; reflexivity|].
  split; [reflexivity|]. split; [by split|]. split; [cbn; lia|].
  eapply (@binner_one_histogram_bin sturges 0 example_mapping
            [frame_single_target] _ _ _ frame_single_target
            [7; 7]%Q [1; 9]%Q 0%Q).
  - vm_compute. reflexivity.
  - reflexivity.
  - by split.
  - left. cbn. lia.
Defined.

Lemma calculate_propagates_analyzer_error_witness :
  [frame_without_target] !! 0 = Some frame_without_target ∧
  @analyzers.calculate sample_analyzer frame_without_target None
    example_mapping = inl (KeyError "target") ∧
  @calculate sturges sample_analyzer
    {| reference_data := None; current_data := Some 0;
       column_mapping := example_mapping |} ∅ [frame_without_target]
  = (inl (KeyError "target"), [frame_without_target]).
Proof.
  split; [reflexivity|]. split; [reflexivity|].
  apply (@calculate_propagates_analyzer_error sturges sample_analyzer
           {| reference_data := None; current_data := Some 0;
              column_mapping := example_mapping |} ∅ [frame_without_target]
           0 frame_without_target None); reflexivity.
Defined.

Lemma calculate_missing_target_column_witness :
  ∃ a,
    [frame_without_target; example_reference] !! 0
    = Some frame_without_target ∧
    @analyzers.calculate sample_analyzer example_reference
      (Some frame_without_target) example_mapping = inr a ∧
    frame_without_target !! target example_mapping = None ∧
    @calculate sturges sample_analyzer example_input ∅
      [frame_without_target; example_reference]
    = (inl (KeyError "target"), [frame_without_target; example_reference]).
Proof.
  eexists. split; [reflexivity|]. split; [vm_compute; reflexivity|].
  split; [reflexivity|].
  eapply (@calculate_missing_target_column sturges sample_analyzer
            example_input ∅ [frame_without_target; example_reference]
            0 frame_without_target (Some example_reference)).
  - reflexivity.
  - reflexivity.
  - by exists example_reference.
  - vm_compute. reflexivity.
  - reflexivity.
Defined.

Lemma calculate_distributions_witness :
  ∃ r h',
    @calculate sturges sample_analyzer example_input ∅ example_heap
    = (inr r, h') ∧
    ∃ current cur oref,
      current_data example_input = Some current ∧
      example_heap !! current = Some cur ∧
      reference_frame example_input example_heap oref ∧
      (@_me_mae_distr sturges 0 (column_mapping example_input) [cur]).1
      = inr (me_distr r, mae_distr r) ∧
      match oref with
      | None => ref_me_distr r = None ∧ ref_mae_distr r = None
      | Some ref =>
          ∃ rme rmae,
            ref_me_distr r = Some rme ∧ ref_mae_distr r = Some rmae ∧
            (@_me_mae_distr sturges 0 (column_mapping example_input) [ref]).1
            = inr (rme, rmae)
      end.
Proof.
  eexists _, _. split; [vm_compute; reflexivity|].
  eapply (@calculate_distributions sturges sample_analyzer example_input ∅
            example_heap).
  vm_compute. reflexivity.
Defined.

